(** * hysteria-panel: remote-session lifecycle

    A shallow embedding of the SSH services of the panel
    ([SSHPool], [NodeSSH], [CryptoService]) and the properties their
    specification states about them, followed by the pool's statistics
    report, the network speed probe and the configuration generator, and
    further properties of all of them.

    Conventions.
    - JavaScript numbers that hold integers (timestamps, counters, ports,
      byte counts) are [Z]; the places where the code divides
      ([getSystemStats], [getNetworkSpeed]) use IEEE binary64 through
      Rocq's primitive floats.
    - JavaScript strings are [string]; the remote outputs handled here are
      ASCII.
    - A promise is the value it settles with: [Resolved a], [Rejected e], or
      [Pending] where the code has no timer of its own.
    - What the process cannot decide (which event a socket emits first, what
      the remote replies) is an explicit argument of the operation. *)

From Stdlib Require Import ZArith Lia Bool List String Ascii Sorted.
From Stdlib Require Import Floats.PrimFloat Floats.SpecFloat Floats.FloatOps Floats.FloatAxioms.
From stdpp Require Import base option list gmap strings pretty.

Local Open Scope string_scope.
Local Open Scope list_scope.
Local Open Scope Z_scope.

(** ** JavaScript helpers shared by the services *)

Module JS.

(** [x || d] on an optional string: [undefined] and [''] are falsy. *)
Definition or_str (o : option string) (d : string) : string :=
  match o with
  | Some s => if decide (s = "") then d else s
  | None => d
  end.

(** [x || d] on an optional number: [undefined] and [0] are falsy. *)
Definition or_num (o : option Z) (d : Z) : Z :=
  match o with
  | Some v => if decide (v = 0) then d else v
  | None => d
  end.

(** Truthiness of an optional string used as a condition. *)
Definition truthy (o : option string) : option string :=
  match o with
  | Some s => if decide (s = "") then None else Some s
  | None => None
  end.

(** The line feed, ["\n"]. *)
Definition LF : ascii := ascii_of_nat 10.

(** White space as [trim] and the regular expression [\s] see it, within
    ASCII: tab, line feed, vertical tab, form feed, carriage return, space. *)
Definition is_space (c : ascii) : bool :=
  let n := nat_of_ascii c in ((9 <=? n)%nat && (n <=? 13)%nat) || (n =? 32)%nat.

(** [hay.includes(needle)] *)
Fixpoint includes (needle hay : string) : bool :=
  String.prefix needle hay ||
  match hay with
  | EmptyString => false
  | String _ rest => includes needle rest
  end.

(** [s.split(sep)] for a separator of one character. *)
Fixpoint split (sep : ascii) (s : string) : list string :=
  match s with
  | EmptyString => [EmptyString]
  | String c rest =>
      if Ascii.eqb c sep then EmptyString :: split sep rest
      else match split sep rest with
           | [] => [String c EmptyString]
           | tok :: toks => String c tok :: toks
           end
  end.

Fixpoint trimStart (s : string) : string :=
  match s with
  | EmptyString => EmptyString
  | String c rest => if is_space c then trimStart rest else s
  end.

(** The string without its trailing white space. *)
Fixpoint trimEnd (s : string) : string :=
  match s with
  | EmptyString => EmptyString
  | String c rest =>
      match trimEnd rest with
      | EmptyString => if is_space c then EmptyString else String c EmptyString
      | rest' => String c rest'
      end
  end.

(** [s.trim()] *)
Definition trim (s : string) : string := trimEnd (trimStart s).

(** [s.split(/\s+/)]: the pieces between maximal runs of white space;
    [in_run] says that the previous character was white space. *)
Fixpoint split_spaces_from (in_run : bool) (s : string) : list string :=
  match s with
  | EmptyString => [EmptyString]
  | String c rest =>
      if is_space c then
        if in_run then split_spaces_from true rest
        else EmptyString :: split_spaces_from true rest
      else match split_spaces_from false rest with
           | [] => [String c EmptyString]
           | tok :: toks => String c tok :: toks
           end
  end.

Definition split_spaces (s : string) : list string := split_spaces_from false s.

(** *** Numbers

    A JavaScript number is a [float].  [of_Z] rounds an integer to the
    nearest double, ties to even. *)

Definition of_Z (z : Z) : float := SF2Prim (binary_normalize prec emax z 0 false).

Definition is_nan (x : float) : bool := negb (PrimFloat.eqb x x).

(** [x || d] on a number: [NaN], [0] and [-0] are falsy. *)
Definition or_float (x d : float) : float :=
  if is_nan x || PrimFloat.eqb x 0 then d else x.

Definition digit_value (radix : Z) (c : ascii) : option Z :=
  let n := Z.of_nat (nat_of_ascii c) in
  let v := if (48 <=? n) && (n <=? 57) then Some (n - 48)
           else if (97 <=? n) && (n <=? 122) then Some (n - 87)
           else if (65 <=? n) && (n <=? 90) then Some (n - 55)
           else None in
  match v with
  | Some d => if d <? radix then Some d else None
  | None => None
  end.

(** The longest prefix of digits of [s], read in [radix] after [acc];
    [seen] says whether a digit was read. *)
Fixpoint digits (radix : Z) (s : string) (acc : Z) (seen : bool) : option Z :=
  match s with
  | EmptyString => if seen then Some acc else None
  | String c rest =>
      match digit_value radix c with
      | Some d => digits radix rest (acc * radix + d) true
      | None => if seen then Some acc else None
      end
  end.

(** [parseInt(s)] with no radix given: leading white space, a sign, an
    optional [0x] or [0X], then digits; [None] is [NaN].  The result is
    the integer read, before it is rounded to a double. *)
Definition parseInt_Z (s : string) : option Z :=
  let s := trimStart s in
  let '(sign, s) := match s with
                    | String "-" rest => (-1, rest)
                    | String "+" rest => (1, rest)
                    | _ => (1, s)
                    end in
  let '(radix, s) := match s with
                     | String "0" (String "x" rest) => (16, rest)
                     | String "0" (String "X" rest) => (16, rest)
                     | _ => (10, s)
                     end in
  match digits radix s 0 false with
  | Some n => Some (sign * n)
  | None => None
  end.

Definition nan : float := PrimFloat.div 0 0.

(** [parseInt(s)] of an optional string: [parseInt(undefined)] is [NaN]. *)
Definition parseInt (o : option string) : float :=
  match o ≫= parseInt_Z with
  | Some n => of_Z n
  | None => nan
  end.

(** The integer [floor (x + 1/2)] for a finite [x = ± m * 2^e]. *)
Definition round_half_up (s : bool) (m : positive) (e : Z) : Z :=
  let sm := if s then Z.neg m else Z.pos m in
  if 0 <=? e then sm * 2 ^ e
  else (2 * sm + 2 ^ (- e)) / 2 ^ (- e + 1).

(** [Math.round(x)] *)
Definition Math_round (x : float) : float :=
  match Prim2SF x with
  | S754_finite s m e =>
      if 0 <=? e then x
      else let n := round_half_up s m e in
           if (n =? 0) && s then PrimFloat.opp 0 else of_Z n
  | _ => x
  end.

(** [Math.floor(x)] *)
Definition Math_floor (x : float) : float :=
  match Prim2SF x with
  | S754_finite s m e =>
      if 0 <=? e then x
      else let n := (if s then Z.neg m else Z.pos m) / 2 ^ (- e) in
           if (n =? 0) && s then PrimFloat.opp 0 else of_Z n
  | _ => x
  end.

End JS.

(** ** CryptoService *)

Module CryptoService.

(** The part of the crypto-js library the service calls: the UTF-8
    encoder, the default (OpenSSL) formatter of cipher parameters, and the
    passphrase-based AES cipher, which draws a random [Salt] when it
    encrypts.  [enc_Utf8_stringify] is [None] where the library throws
    [Malformed UTF-8 data]. *)
Class CryptoJS := {
  WordArray : Type;
  CipherParams : Type;
  Salt : Type;
  enc_Utf8_parse : string → WordArray;
  enc_Utf8_stringify : WordArray → option string;
  format_stringify : CipherParams → string;
  format_parse : string → CipherParams;
  cipher_encrypt : Salt → WordArray → string → CipherParams;
  cipher_decrypt : CipherParams → string → WordArray
}.

(** What the library promises about them: each decoder undoes its
    encoder, and the cipher decrypts under the passphrase it encrypted
    with. *)
Class CryptoJS_contract (L : CryptoJS) := {
  utf8_roundtrip : ∀ s, enc_Utf8_stringify (enc_Utf8_parse s) = Some s;
  format_roundtrip : ∀ params, format_parse (format_stringify params) = params;
  cipher_roundtrip : ∀ salt message passphrase,
    cipher_decrypt (cipher_encrypt salt message passphrase) passphrase = message
}.

Section Service.

Context {L : CryptoJS}.

(** [CryptoJS.AES.encrypt(message, key)] for a string message and a string
    key, and [CryptoJS.AES.decrypt(ciphertext, key)] for a string
    ciphertext. *)
Definition AES_encrypt (salt : Salt) (message key : string) : CipherParams :=
  cipher_encrypt salt (enc_Utf8_parse message) key.

Definition AES_decrypt (ciphertext key : string) : WordArray :=
  cipher_decrypt (format_parse ciphertext) key.

(** The service object: [this.key = config.ENCRYPTION_KEY]. *)
Record Service := mkService { key : string }.

(** [encrypt(data)], for a string [data] ([String(data)] is [data]); [salt]
    is the randomness of this call. *)
Definition encrypt (this : Service) (salt : Salt) (data : string) : string :=
  format_stringify (AES_encrypt salt data (key this)).

(** [decrypt(encryptedData)]; [None] when [toString] throws. *)
Definition decrypt (this : Service) (encryptedData : string) : option string :=
  let bytes := AES_decrypt encryptedData (key this) in
  enc_Utf8_stringify bytes.

End Service.

(** A toy library that keeps the contract: the formatter puts the salt in
    front, the cipher puts the passphrase in front of the text and takes
    as many characters off again. *)
Fixpoint drop_chars (n : nat) (s : string) : string :=
  match n, s with
  | S n', String _ rest => drop_chars n' rest
  | _, _ => s
  end.

#[global] Instance toy_library : CryptoJS := {|
  WordArray := string;
  CipherParams := ascii * string;
  Salt := ascii;
  enc_Utf8_parse := λ s, s;
  enc_Utf8_stringify := Some;
  format_stringify := λ params, String params.1 params.2;
  format_parse := λ s, match s with
                       | String salt rest => (salt, rest)
                       | EmptyString => (Ascii.zero, EmptyString)
                       end;
  cipher_encrypt := λ salt message passphrase, (salt, passphrase +:+ message);
  cipher_decrypt := λ params passphrase, drop_chars (String.length passphrase) params.2
|}.

End CryptoService.

(** ** What the ssh2 library hands back to the services *)

Module Ssh2.

(** [{ code, stdout, stderr }]; [code] is [None] when the channel closes
    without an exit status. *)
Record ExecResult := mkExecResult {
  code : option Z;
  stdout : string;
  stderr : string
}.

(** One ['data'] event of a command channel, on the stream or on its
    [stderr]. *)
Inductive Chunk :=
| Stdout (data : string)
| Stderr (data : string).

(** The reply to [client.exec(command, callback)]: the callback gets an
    error, or a stream that emits [chunks] and then, if [closes] is
    [Some (elapsed, code)], ['close'] with [code] after [elapsed]
    milliseconds; [None] is a channel that never closes. *)
Inductive ExecReply :=
| ExecRefused (msg : string)
| ExecStarted (chunks : list Chunk) (closes : option (Z * option Z)).

(** [stdout += data.toString()] over the stream's ['data'] events. *)
Fixpoint collect_stdout (chunks : list Chunk) : string :=
  match chunks with
  | [] => ""
  | Stdout d :: rest => d +:+ collect_stdout rest
  | Stderr _ :: rest => collect_stdout rest
  end.

(** [stderr += data.toString()] over the ['data'] events of [stream.stderr]. *)
Fixpoint collect_stderr (chunks : list Chunk) : string :=
  match chunks with
  | [] => ""
  | Stdout _ :: rest => collect_stderr rest
  | Stderr d :: rest => d +:+ collect_stderr rest
  end.

(** The data of the stream's chunks, and of those of its [stderr]. *)
Definition stdout_data (chunks : list Chunk) : list string :=
  omap (λ ch, match ch with Stdout d => Some d | Stderr _ => None end) chunks.

Definition stderr_data (chunks : list Chunk) : list string :=
  omap (λ ch, match ch with Stderr d => Some d | Stdout _ => None end) chunks.

(** The reply to [client.sftp(callback)] followed by one stream transfer:
    no sftp channel, a stream ['error'], or ['close'] after the transfer. *)
Inductive SftpReply (A : Type) :=
| SftpRefused (msg : string)
| SftpStreamError (msg : string)
| SftpClosed (a : A).
Arguments SftpRefused {A} msg.
Arguments SftpStreamError {A} msg.
Arguments SftpClosed {A} a.

End Ssh2.

(** ** SSHPool: the connection pool *)

Module SSHPool.

Record SshCreds := mkSshCreds {
  ssh_port : option Z;
  ssh_username : option string;
  ssh_privateKey : option string;
  ssh_password : option string
}.

Record Node := mkNode {
  _id : option string;
  id : string;
  name : option string;
  ip : string;
  ssh : option SshCreds
}.

(** [node._id?.toString() || node.id] *)
Definition nodeId_of (node : Node) : string := JS.or_str (_id node) (id node).

(** [node.name || nodeId] *)
Definition nodeName_of (node : Node) : string := JS.or_str (name node) (nodeId_of node).

Record Config := mkConfig {
  maxIdleTime : Z;
  keepAliveInterval : Z;
  connectTimeout : Z;
  maxRetries : Z;
  cleanupInterval : Z
}.

Record Options := mkOptions {
  opt_maxIdleTime : option Z;
  opt_keepAliveInterval : option Z;
  opt_connectTimeout : option Z;
  opt_maxRetries : option Z;
  opt_cleanupInterval : option Z
}.

(** The settings block of the constructor. *)
Definition mk_config (options : Options) : Config :=
  {| maxIdleTime := JS.or_num (opt_maxIdleTime options) (2 * 60 * 1000);
     keepAliveInterval := JS.or_num (opt_keepAliveInterval options) 30000;
     connectTimeout := JS.or_num (opt_connectTimeout options) 15000;
     maxRetries := JS.or_num (opt_maxRetries options) 2;
     cleanupInterval := JS.or_num (opt_cleanupInterval options) 30000 |}.

(** The options of the exported singleton. *)
Definition singleton_options : Options :=
  {| opt_maxIdleTime := Some (2 * 60 * 1000);
     opt_keepAliveInterval := Some (30 * 1000);
     opt_connectTimeout := Some (15 * 1000);
     opt_maxRetries := Some 2;
     opt_cleanupInterval := Some (30 * 1000) |}.

Inductive Auth :=
| AuthKey (privateKey : string)
| AuthPassword (password : string).

Record SshConfig := mkSshConfig {
  cfg_host : string;
  cfg_port : Z;
  cfg_username : string;
  cfg_readyTimeout : Z;
  cfg_keepaliveInterval : Z;
  cfg_keepaliveCountMax : Z;
  cfg_auth : Auth
}.

(** The errors a pool promise rejects with.  [TransportError] carries the
    message of an error object handed over by the ssh2 library. *)
Inductive Error :=
| ConnectionTimeout (ms : Z)
| NoKeyOrPassword
| ExecTimeout (ms : Z) (command50 : string)
| TransportError (msg : string).

Inductive Settled (A : Type) :=
| Resolved (a : A)
| Rejected (e : Error).
Arguments Resolved {A} a.
Arguments Rejected {A} e.

(** Which of the three callbacks armed by [createConnection] runs first
    for one client: its ['ready'] handler (at time [now]), its ['error']
    handler, or the connect timer. *)
Inductive ConnEvent :=
| EvReady (now : Z)
| EvError (msg : string)
| EvTimer.

(** A registry entry.  [client] names the ssh2 [Client] object: clients are
    numbered in the order [new Client()] creates them. *)
Record Meta := mkMeta {
  client : nat;
  nodeId : string;
  nodeName : string;
  host : string;
  createdAt : Z;
  lastUsed : Z;
  useCount : Z
}.

(** The pool together with what it can observe of its clients.
    - [connections], [config]: the fields of the class;
    - [clients]: how many [Client] objects exist;
    - [owner]: for a client with handlers attached, the node captured by
      their closure;
    - [writable]: the clients whose [_sock?.writable] is truthy;
    - [connects]: the [.connect(sshConfig)] calls made, oldest first;
    - [sleeps]: the back-off delays awaited, oldest first;
    - [ended]: the clients [.end()] was called on, oldest first;
    - [reported]: the clients that have emitted ['error'], ['close'] or
      ['end'] (specification-only bookkeeping). *)
Record Pool := mkPool {
  connections : gmap string Meta;
  config : Config;
  clients : nat;
  owner : gmap nat Node;
  writable : gset nat;
  connects : list (nat * SshConfig);
  sleeps : list Z;
  ended : list nat;
  reported : gset nat
}.

Definition empty_pool (cfg : Config) : Pool :=
  mkPool ∅ cfg 0 ∅ ∅ [] [] [] ∅.

Definition set_connections (f : gmap string Meta → gmap string Meta) (st : Pool) : Pool :=
  mkPool (f (connections st)) (config st) (clients st) (owner st) (writable st)
         (connects st) (sleeps st) (ended st) (reported st).

Definition set_writable (f : gset nat → gset nat) (st : Pool) : Pool :=
  mkPool (connections st) (config st) (clients st) (owner st) (f (writable st))
         (connects st) (sleeps st) (ended st) (reported st).

Definition set_reported (f : gset nat → gset nat) (st : Pool) : Pool :=
  mkPool (connections st) (config st) (clients st) (owner st) (writable st)
         (connects st) (sleeps st) (ended st) (f (reported st)).

(** [new Client()] *)
Definition new_client (st : Pool) : nat * Pool :=
  (clients st,
   mkPool (connections st) (config st) (S (clients st)) (owner st) (writable st)
          (connects st) (sleeps st) (ended st) (reported st)).

(** [client.on('ready', ..).on('error', ..).on('close', ..).on('end', ..).connect(sshConfig)] *)
Definition attach_and_connect (c : nat) (node : Node) (sshConfig : SshConfig) (st : Pool) : Pool :=
  mkPool (connections st) (config st) (clients st) (<[c := node]> (owner st)) (writable st)
         (connects st ++ [(c, sshConfig)]) (sleeps st) (ended st) (reported st).

(** [await new Promise(r => setTimeout(r, delay))] *)
Definition sleep (delay : Z) (st : Pool) : Pool :=
  mkPool (connections st) (config st) (clients st) (owner st) (writable st)
         (connects st) (sleeps st ++ [delay]) (ended st) (reported st).

(** [client.end()]: the call is recorded and the socket stops being
    writable. *)
Definition client_end (c : nat) (st : Pool) : Pool :=
  mkPool (connections st) (config st) (clients st) (owner st) (writable st ∖ {[c]})
         (connects st) (sleeps st) (ended st ++ [c]) (reported st).

(** The socket of a client that became ready is open. *)
Definition sock_open (c : nat) (st : Pool) : Pool := set_writable (λ w, {[c]} ∪ w) st.

(** [removeConnection(nodeId, reason)] *)
Definition removeConnection (nodeId : string) (st : Pool) : Pool :=
  match connections st !! nodeId with
  | Some conn => set_connections (delete nodeId) (client_end (client conn) st)
  | None => st
  end.

(** *** The handlers attached by [createConnection] *)

(** ['ready']: save to the pool. *)
Definition on_ready (c : nat) (node : Node) (now : Z) (st : Pool) : Pool :=
  let meta := {| client := c;
                 nodeId := nodeId_of node;
                 nodeName := nodeName_of node;
                 host := ip node;
                 createdAt := now;
                 lastUsed := now;
                 useCount := 1 |} in
  set_connections (insert (nodeId_of node) meta) st.

(** ['error'], up to the retry decision: [this.connections.delete(nodeId)]. *)
Definition on_error (c : nat) (node : Node) (st : Pool) : Pool :=
  set_connections (delete (nodeId_of node)) (set_reported (λ r, {[c]} ∪ r) st).

(** ['close'] *)
Definition on_close (c : nat) (node : Node) (st : Pool) : Pool :=
  removeConnection (nodeId_of node) (set_reported (λ r, {[c]} ∪ r) st).

(** ['end'] *)
Definition on_end (c : nat) (node : Node) (st : Pool) : Pool :=
  removeConnection (nodeId_of node) (set_reported (λ r, {[c]} ∪ r) st).

(** The connect timer: [client.end(); reject(..)]. *)
Definition on_connect_timer (c : nat) (st : Pool) : Pool := client_end c st.

Section Environment.

(** [cryptoService.decrypt] *)
Variable decrypt : string → string.

(** What client number [c] does once [.connect] was called on it. *)
Variable net : nat → ConnEvent.

(** The authentication block of [createConnection]. *)
Definition authentication (node : Node) : option Auth :=
  match JS.truthy (ssh node ≫= ssh_privateKey) with
  | Some key => Some (AuthKey key)
  | None =>
      match JS.truthy (ssh node ≫= ssh_password) with
      | Some pw => Some (AuthPassword (decrypt pw))
      | None => None
      end
  end.

Definition buildSshConfig (cfg : Config) (node : Node) (auth : Auth) : SshConfig :=
  {| cfg_host := ip node;
     cfg_port := JS.or_num (ssh node ≫= ssh_port) 22;
     cfg_username := JS.or_str (ssh node ≫= ssh_username) "root";
     cfg_readyTimeout := connectTimeout cfg;
     cfg_keepaliveInterval := keepAliveInterval cfg;
     cfg_keepaliveCountMax := 3;
     cfg_auth := auth |}.

(** [createConnection(node, retryCount)].  The recursion of the retry
    path is bounded by [maxRetries - retryCount]; [fuel] makes that
    bound structural, and [createConnection] below supplies enough.

    The result is what the promise settles with, and the pool at that
    moment.  Settling detaches nothing: the handlers of the client stay
    attached (it keeps its [owner]), so what the client emits later still
    runs them.  In particular the connect timer only ends the client and
    rejects; ssh2 is given the same time as [readyTimeout], and when the
    timed-out client then emits ['error'], its handler deletes, waits and
    retries although the promise is settled: that is
    [SSHPoolBackground.late_error], and in the life of a pool the steps
    [step_error] and [step_createConnection].
    [decrypt] is taken to return and [.connect] not to throw. *)
Fixpoint createConnection_fuel (fuel : nat) (node : Node) (retryCount : Z) (st : Pool)
  : option (Settled nat * Pool) :=
  match fuel with
  | O => None
  | S fuel' =>
      let '(c, st) := new_client st in
      match authentication node with
      | None => Some (Rejected NoKeyOrPassword, st)
      | Some auth =>
          let st := attach_and_connect c node (buildSshConfig (config st) node auth) st in
          match net c with
          | EvReady now => Some (Resolved c, on_ready c node now (sock_open c st))
          | EvError msg =>
              let st := on_error c node st in
              if decide (retryCount < maxRetries (config st)) then
                let delay := 2 ^ retryCount * 500 in
                createConnection_fuel fuel' node (retryCount + 1) (sleep delay st)
              else Some (Rejected (TransportError msg), st)
          | EvTimer =>
              Some (Rejected (ConnectionTimeout (connectTimeout (config st))),
                    on_connect_timer c st)
          end
      end
  end.

Definition retry_budget (cfg : Config) (retryCount : Z) : nat :=
  S (Z.to_nat (maxRetries cfg - retryCount)).

Definition createConnection (node : Node) (retryCount : Z) (st : Pool)
  : option (Settled nat * Pool) :=
  createConnection_fuel (retry_budget (config st) retryCount) node retryCount st.

(** [getConnection(node)], called at time [now]. *)
Definition getConnection (node : Node) (now : Z) (st : Pool)
  : option (Settled nat * Pool) :=
  let nodeId := nodeId_of node in
  match connections st !! nodeId with
  | Some existing =>
      if decide (client existing ∈ writable st) then
        let touched := {| client := client existing;
                          nodeId := SSHPool.nodeId existing;
                          nodeName := nodeName existing;
                          host := host existing;
                          createdAt := createdAt existing;
                          lastUsed := now;
                          useCount := useCount existing + 1 |} in
        Some (Resolved (client existing), set_connections (insert nodeId touched) st)
      else createConnection node 0 (removeConnection nodeId st)
  | None => createConnection node 0 st
  end.

(** [exec(node, command, options)], called at time [now]; [timeout] is
    [options.timeout].  The timer and the channel's ['close'] race: the
    channel wins when it closes strictly before the timer is due. *)
Definition exec (node : Node) (command : string) (timeout : option Z) (now : Z)
    (reply : Ssh2.ExecReply) (st : Pool) : option (Settled Ssh2.ExecResult * Pool) :=
  match getConnection node now st with
  | None => None
  | Some (Rejected e, st) => Some (Rejected e, st)
  | Some (Resolved _, st) =>
      let nodeId := nodeId_of node in
      let execTimeout := JS.or_num timeout 30000 in
      let timed_out := Rejected (ExecTimeout execTimeout (substring 0 50 command)) in
      match reply with
      | Ssh2.ExecRefused msg =>
          Some (Rejected (TransportError msg), removeConnection nodeId st)
      | Ssh2.ExecStarted chunks (Some (elapsed, code)) =>
          if decide (elapsed < execTimeout) then
            Some (Resolved (Ssh2.mkExecResult code (Ssh2.collect_stdout chunks)
                                              (Ssh2.collect_stderr chunks)), st)
          else Some (timed_out, st)
      | Ssh2.ExecStarted chunks None => Some (timed_out, st)
      end
  end.

(** [writeFile(node, remotePath, content)] *)
Definition writeFile (node : Node) (now : Z) (reply : Ssh2.SftpReply unit) (st : Pool)
    : option (Settled unit * Pool) :=
  match getConnection node now st with
  | None => None
  | Some (Rejected e, st) => Some (Rejected e, st)
  | Some (Resolved _, st) =>
      match reply with
      | Ssh2.SftpRefused msg =>
          Some (Rejected (TransportError msg), removeConnection (nodeId_of node) st)
      | Ssh2.SftpStreamError msg => Some (Rejected (TransportError msg), st)
      | Ssh2.SftpClosed _ => Some (Resolved tt, st)
      end
  end.

(** [readFile(node, remotePath)] *)
Definition readFile (node : Node) (now : Z) (reply : Ssh2.SftpReply string) (st : Pool)
    : option (Settled string * Pool) :=
  match getConnection node now st with
  | None => None
  | Some (Rejected e, st) => Some (Rejected e, st)
  | Some (Resolved _, st) =>
      match reply with
      | Ssh2.SftpRefused msg =>
          Some (Rejected (TransportError msg), removeConnection (nodeId_of node) st)
      | Ssh2.SftpStreamError msg => Some (Rejected (TransportError msg), st)
      | Ssh2.SftpClosed content => Some (Resolved content, st)
      end
  end.

End Environment.

(** [hasConnection(nodeId)] *)
Definition hasConnection (nodeId : string) (st : Pool) : bool :=
  match connections st !! nodeId with
  | Some conn => bool_decide (client conn ∈ writable st)
  | None => false
  end.

(** [close(nodeId)] *)
Definition close (nodeId : string) (st : Pool) : Pool := removeConnection nodeId st.

(** One turn of the loop of [cleanup]. *)
Definition cleanup_entry (now : Z) (st : Pool) (entry : string * Meta) : Pool :=
  let idleTime := now - lastUsed entry.2 in
  if decide (idleTime > maxIdleTime (config st)) then removeConnection entry.1 st else st.

(** [cleanup()], run at time [now]: the loop over the entries of the
    registry. *)
Definition cleanup (now : Z) (st : Pool) : Pool :=
  foldl (cleanup_entry now) st (map_to_list (connections st)).

(** [closeAll()] *)
Definition closeAll (st : Pool) : Pool :=
  set_connections (λ _, ∅)
    (foldl (λ st entry, client_end (client entry.2) st) st (map_to_list (connections st))).

(** *** The life of a pool

    One step is a call of the public interface, a background retry of
    [createConnection], or an event of a client that has handlers attached.
    ssh2 emits ['ready'] for a client only while it has not reported
    ['error'], ['close'] or ['end']. *)
Inductive step (decrypt : string → string) (net : nat → ConnEvent) : Pool → Pool → Prop :=
| step_getConnection node now st r st' :
    getConnection decrypt net node now st = Some (r, st') → step decrypt net st st'
| step_createConnection node retryCount st r st' :
    createConnection decrypt net node retryCount st = Some (r, st') → step decrypt net st st'
| step_exec node command timeout now reply st r st' :
    exec decrypt net node command timeout now reply st = Some (r, st') → step decrypt net st st'
| step_writeFile node now reply st r st' :
    writeFile decrypt net node now reply st = Some (r, st') → step decrypt net st st'
| step_readFile node now reply st r st' :
    readFile decrypt net node now reply st = Some (r, st') → step decrypt net st st'
| step_close nodeId st : step decrypt net st (close nodeId st)
| step_cleanup now st : step decrypt net st (cleanup now st)
| step_closeAll st : step decrypt net st (closeAll st)
| step_ready c node now st :
    owner st !! c = Some node → c ∉ reported st → step decrypt net st (on_ready c node now st)
| step_error c node st :
    owner st !! c = Some node → step decrypt net st (on_error c node st)
| step_closed c node st :
    owner st !! c = Some node → step decrypt net st (on_close c node st)
| step_ended c node st :
    owner st !! c = Some node → step decrypt net st (on_end c node st)
| step_socket_down c st : step decrypt net st (set_writable (λ w, w ∖ {[c]}) st).


(** *** Notions used to state the properties of the pool *)

(** The state in which the handlers of client [clients st] run. *)
Definition connecting (node : Node) (auth : Auth) (st : Pool) : Pool :=
  attach_and_connect (clients st) node (buildSshConfig (config st) node auth) (new_client st).2.

(** Back-off delays awaited from retry [retryCount] on, [n] of them. *)
Definition backoff (retryCount : Z) (n : nat) : list Z :=
  (λ k : nat, 2 ^ (retryCount + Z.of_nat k) * 500) <$> seq 0 n.

(** The entries the loop walks over are those of the registry: wherever the
    registry still has a key of the list, it holds the listed entry. *)
Definition agrees (l : list (string * Meta)) (st : Pool) : Prop :=
  ∀ k v v', (k, v) ∈ l → connections st !! k = Some v' → v' = v.

(** Every entry is filed under the id of the node its client was created
    for, its client exists and has reported no terminal event; only
    existing clients have handlers or have reported anything. *)
Definition well_formed (st : Pool) : Prop :=
  (∀ k e, connections st !! k = Some e →
     (client e ∉ reported st) ∧
     (∃ node, owner st !! client e = Some node ∧ nodeId_of node = k)) ∧
  (∀ c, c ∈ reported st → (c < clients st)%nat) ∧
  (∀ c node, owner st !! c = Some node → (c < clients st)%nat).

(** *** Sample inputs *)

(** The configuration of the exported singleton. *)
Definition default_config : Config := mk_config singleton_options.

(** A node that authenticates with a stored (encrypted) password. *)
Definition example_node : Node :=
  {| _id := Some "65a1f0c2"; id := "";
     name := Some "edge-1"; ip := "203.0.113.7";
     ssh := Some {| ssh_port := None; ssh_username := None;
                    ssh_privateKey := None; ssh_password := Some "U2FsdGVkX18x" |} |}.

(** A node for which neither a key nor a password is stored. *)
Definition bare_node : Node :=
  {| _id := Some "65a1f0c3"; id := ""; name := Some "edge-2"; ip := "203.0.113.8";
     ssh := None |}.

(** A network on which every client becomes ready at time 1000, one on
    which every client reports [ECONNREFUSED], and one on which nothing
    happens before the connect timer is due. *)
Definition net_ready : nat → ConnEvent := λ _, EvReady 1000.
Definition net_refused : nat → ConnEvent := λ _, EvError "ECONNREFUSED".
Definition net_silent : nat → ConnEvent := λ _, EvTimer.

(** The singleton after one successful [getConnection] for [example_node]. *)
Definition one_session : Pool :=
  match getConnection (λ s, s) net_ready example_node 1000 (empty_pool default_config) with
  | Some (_, st) => st
  | None => empty_pool default_config
  end.

(** A pool holding a session last used at 0 and one last used at 100000. *)
Definition two_sessions : Pool :=
  {| connections :=
       <["a" := mkMeta 0 "a" "node-a" "198.51.100.1" 0 0 1]>
         (<["b" := mkMeta 1 "b" "node-b" "198.51.100.2" 0 100000 4]> ∅);
     config := default_config;
     clients := 2;
     owner := ∅;
     writable := {[0%nat; 1%nat]};
     connects := [];
     sleeps := [];
     ended := [];
     reported := ∅ |}.

End SSHPool.

(** ** NodeSSH: one session and the remote operations *)

Module NodeSSH.

Record Node := mkNode {
  name : string;
  ip : string;
  port : option Z;
  paths_config : option string;
  ssh : option SSHPool.SshCreds
}.

(** The errors a promise of this class rejects with: its own two, and an
    error object handed over (or thrown) by the ssh2 library. *)
Inductive Error :=
| NotConnected
| NoKeyOrPassword
| Ssh2Error (msg : string).

(** How an awaited promise ends.  No operation of this class has a timer,
    so a promise whose channel never closes stays [Pending]. *)
Inductive Outcome (A : Type) :=
| Returned (a : A)
| Thrown (e : Error)
| Pending.
Arguments Returned {A} a.
Arguments Thrown {A} e.
Arguments Pending {A}.

(** *** The commands sent to the node *)

Inductive Family := IPv4 | IPv6.

Inductive RuleOp := Delete | Append.

(** [-t nat .. PREROUTING [-i iface] -p udp --dport first:last -j REDIRECT
    --to-port to_port].  [dport_first] and [dport_last] are what the
    template interpolates; [None] stands for a value that is not an
    integer ([NaN], [undefined], a fraction). *)
Record Redirect := mkRedirect {
  in_iface : option string;
  dport_first : option Z;
  dport_last : option Z;
  to_port : Z
}.

#[global] Instance Redirect_eq_dec : EqDecision Redirect.
Proof. solve_decision. Defined.

(** One line of the port hopping script.  [quiet] is the suffix
    [2>/dev/null || true]. *)
Inductive ShellLine :=
| Iptables (family : Family) (op : RuleOp) (rule : Redirect) (quiet : bool)
| UfwAllowUdp (first last : option Z)
| SaveRules
| EchoPortHopping (first last : option Z) (mainPort : Z).

(** The command texts of the class, by the method that sends them:
    - [CmdIsActiveOrUnknown]: [systemctl is-active hysteria-server
      2>/dev/null || systemctl is-active hysteria 2>/dev/null || echo
      "unknown"] ([checkHysteriaStatus]);
    - [CmdRestartQuiet]: [systemctl restart hysteria-server 2>/dev/null ||
      systemctl restart hysteria 2>/dev/null] ([restartHysteria]);
    - [CmdRestart]: [systemctl restart hysteria-server 2>&1 || systemctl
      restart hysteria 2>&1], [CmdIsActive]: the probe without the [echo],
      [CmdJournal]: [journalctl -u hysteria-server -n 10 --no-pager
      2>/dev/null || journalctl -u hysteria ..] ([reloadHysteria]);
    - [CmdBackup p]: [cp p p.bak 2>/dev/null || true], [CmdCheck p]:
      [/usr/local/bin/hysteria check -c p 2>&1 || true], [CmdRestore p]:
      [mv p.bak p] ([updateConfig]);
    - [CmdScript lines]: the script of [setupPortHopping];
    - [CmdStats]: the script of [getSystemStats]. *)
Inductive Command :=
| CmdIsActiveOrUnknown
| CmdRestartQuiet
| CmdRestart
| CmdIsActive
| CmdJournal
| CmdBackup (configPath : string)
| CmdCheck (configPath : string)
| CmdRestore (configPath : string)
| CmdScript (lines : list ShellLine)
| CmdStats.

(** How [connect] ends on the wire: ['ready'], ['error'], or neither. *)
Inductive Handshake :=
| HandshakeReady
| HandshakeError (msg : string)
| HandshakeSilent.

(** An instance of the class and its surroundings: [client] says whether
    [this.client] holds a [Client]; [remote] is the node at the other end;
    [waited] lists the grace periods slept through, oldest first. *)
Record Session (R : Type) := mkSession {
  client : bool;
  remote : R;
  waited : list Z
}.
Arguments mkSession {R} client remote waited.
Arguments client {R} s.
Arguments remote {R} s.
Arguments waited {R} s.

(** *** The result of [getSystemStats] *)

Record Cpu := mkCpu { load1 : float; load5 : float; load15 : float; cores : float }.

Record Usage := mkUsage { total : float; used : float; free : float; percent : float }.

Record Stats := mkStats { cpu : Cpu; mem : Usage; disk : Usage; uptime : float }.

Inductive StatsResult :=
| StatsOk (stats : Stats)
| StatsFailed (error : Error).

Inductive StatsSection := SecNone | SecCpu | SecCores | SecMem | SecDisk | SecUptime.

Section Operations.

Context {R : Type}.

(** The node's reply to [client.exec(command, ..)], and to an sftp write
    or read of a path. *)
Variable shell : Command → R → Ssh2.ExecReply * R.
Variable sftp_write : string → string → R → Ssh2.SftpReply unit * R.
Variable sftp_read : string → R → Ssh2.SftpReply string * R.

(** [parseFloat] (of a possibly missing string) and [Number] (as an
    integer, when it is one). *)
Variable parseFloat : option string → float.
Variable Number : string → option Z.

(** An [async] body: it runs from a session and ends in an outcome. *)
Definition Async (A : Type) : Type := Session R → Outcome A * Session R.

Definition ret {A} (a : A) : Async A := λ s, (Returned a, s).

(** [await]: a rejection or a promise that never settles ends the body. *)
Definition bind {A B} (m : Async A) (k : A → Async B) : Async B :=
  λ s, match m s with
       | (Returned a, s') => k a s'
       | (Thrown e, s') => (Thrown e, s')
       | (Pending, s') => (Pending, s')
       end.

(** [try { body } catch (error) { handler }] *)
Definition try_catch {A} (body : Async A) (handler : Error → Async A) : Async A :=
  λ s, match body s with
       | (Thrown e, s') => handler e s'
       | settled => settled
       end.

(** [await new Promise(resolve => setTimeout(resolve, ms))] *)
Definition sleep (ms : Z) : Async unit :=
  λ s, (Returned tt, mkSession (client s) (remote s) (waited s ++ [ms])).

Notation "'await' x ← m ; k" := (bind m (λ x, k))
  (at level 10, x name, m at level 100, k at level 200).

(** [constructor(node)]: [this.client = null]. *)
Definition new_session (r : R) : Session R := mkSession false r [].

(** [connect()]; the password, when one is used, is
    [cryptoService.decrypt(this.node.ssh.password)]. *)
Definition connect (node : Node) (wire : Handshake) : Async unit :=
  λ s,
    let s := mkSession true (remote s) (waited s) in
    match JS.truthy (ssh node ≫= SSHPool.ssh_privateKey),
          JS.truthy (ssh node ≫= SSHPool.ssh_password) with
    | None, None => (Thrown NoKeyOrPassword, s)
    | _, _ =>
        match wire with
        | HandshakeReady => (Returned tt, s)
        | HandshakeError msg => (Thrown (Ssh2Error msg), s)
        | HandshakeSilent => (Pending, s)
        end
    end.

(** [disconnect()] *)
Definition disconnect (s : Session R) : Session R :=
  if client s then mkSession false (remote s) (waited s) else s.

(** [exec(command)] *)
Definition exec (command : Command) : Async Ssh2.ExecResult :=
  λ s,
    if negb (client s) then (Thrown NotConnected, s)
    else
      let '(reply, r) := shell command (remote s) in
      let s := mkSession (client s) r (waited s) in
      match reply with
      | Ssh2.ExecRefused msg => (Thrown (Ssh2Error msg), s)
      | Ssh2.ExecStarted chunks (Some (_, code)) =>
          (Returned (Ssh2.mkExecResult code (Ssh2.collect_stdout chunks)
                                       (Ssh2.collect_stderr chunks)), s)
      | Ssh2.ExecStarted chunks None => (Pending, s)
      end.

(** [writeFile(remotePath, content)] *)
Definition writeFile (remotePath content : string) : Async unit :=
  λ s,
    if negb (client s) then (Thrown NotConnected, s)
    else
      let '(reply, r) := sftp_write remotePath content (remote s) in
      let s := mkSession (client s) r (waited s) in
      match reply with
      | Ssh2.SftpRefused msg => (Thrown (Ssh2Error msg), s)
      | Ssh2.SftpStreamError msg => (Thrown (Ssh2Error msg), s)
      | Ssh2.SftpClosed _ => (Returned tt, s)
      end.

(** [readFile(remotePath)] *)
Definition readFile (remotePath : string) : Async string :=
  λ s,
    if negb (client s) then (Thrown NotConnected, s)
    else
      let '(reply, r) := sftp_read remotePath (remote s) in
      let s := mkSession (client s) r (waited s) in
      match reply with
      | Ssh2.SftpRefused msg => (Thrown (Ssh2Error msg), s)
      | Ssh2.SftpStreamError msg => (Thrown (Ssh2Error msg), s)
      | Ssh2.SftpClosed content => (Returned content, s)
      end.

(** [checkHysteriaStatus()] *)
Definition checkHysteriaStatus : Async bool :=
  try_catch
    (await _ ← sleep 2000;
     await result ← exec CmdIsActiveOrUnknown;
     let status := JS.trim (Ssh2.stdout result) in
     ret (bool_decide (status = "active")))
    (λ _, ret false).

(** [restartHysteria()] *)
Definition restartHysteria : Async bool :=
  try_catch
    (await result ← exec CmdRestartQuiet;
     if bool_decide (Ssh2.code result = Some 0) then ret true else ret false)
    (λ _, ret false).

(** [reloadHysteria()] *)
Definition reloadHysteria : Async bool :=
  try_catch
    (await _ ← exec CmdRestart;
     await _ ← sleep 3000;
     await statusResult ← exec CmdIsActive;
     let isActive := bool_decide (JS.trim (Ssh2.stdout statusResult) = "active") in
     if isActive then ret true
     else (await _ ← exec CmdJournal; ret false))
    (λ _, ret false).

(** [this.node.paths?.config || '/etc/hysteria/config.yaml'] *)
Definition configPath_of (node : Node) : string :=
  JS.or_str (paths_config node) "/etc/hysteria/config.yaml".

(** [updateConfig(configContent)] *)
Definition updateConfig (node : Node) (configContent : string) : Async bool :=
  try_catch
    (let configPath := configPath_of node in
     await _ ← exec (CmdBackup configPath);
     await _ ← writeFile configPath configContent;
     await checkResult ← exec (CmdCheck configPath);
     if JS.includes "error" (Ssh2.stdout checkResult)
        || JS.includes "error" (Ssh2.stderr checkResult)
     then (await _ ← exec (CmdRestore configPath); ret false)
     else reloadHysteria)
    (λ _, ret false).

(** The interface names of the legacy rules. *)
Definition legacy_ifaces : list string :=
  ["eth0"; "eth1"; "ens3"; "ens5"; "enp0s3"; "eno1"].

(** The script of [setupPortHopping], line by line. *)
Definition port_hopping_script (startPort endPort : option Z) (mainPort : Z) : list ShellLine :=
  let rule iface := mkRedirect iface startPort endPort mainPort in
  [ Iptables IPv4 Delete (rule None) true;
    Iptables IPv6 Delete (rule None) true ]
  ++ flat_map (λ iface, [ Iptables IPv4 Delete (rule (Some iface)) true;
                          Iptables IPv6 Delete (rule (Some iface)) true ]) legacy_ifaces
  ++ [ Iptables IPv4 Append (rule None) false;
       Iptables IPv6 Append (rule None) false;
       UfwAllowUdp startPort endPort;
       SaveRules;
       EchoPortHopping startPort endPort mainPort ].

(** [setupPortHopping(portRange)] *)
Definition setupPortHopping (node : Node) (portRange : string) : Async bool :=
  try_catch
    (let mainPort := JS.or_num (port node) 443 in
     let parts := Number <$> JS.split "-" portRange in
     let startPort := mjoin (parts !! 0%nat) in
     let endPort := mjoin (parts !! 1%nat) in
     await _ ← exec (CmdScript (port_hopping_script startPort endPort mainPort));
     ret true)
    (λ _, ret false).

(** [total > 0 ? Math.round((used / total) * 100) : 0] *)
Definition percent_of (used total : float) : float :=
  if PrimFloat.ltb 0 total then JS.Math_round (PrimFloat.mul (PrimFloat.div used total) 100)
  else 0%float.

(** One turn of the loop of [getSystemStats] over the lines of the
    output. *)
Definition stats_line (acc : StatsSection * Stats) (line : string) : StatsSection * Stats :=
  let '(section, stats) := acc in
  if JS.includes "===CPU===" line then (SecCpu, stats)
  else if JS.includes "===CORES===" line then (SecCores, stats)
  else if JS.includes "===MEM===" line then (SecMem, stats)
  else if JS.includes "===DISK===" line then (SecDisk, stats)
  else if JS.includes "===UPTIME===" line then (SecUptime, stats)
  else if bool_decide (JS.trim line = "") then acc
  else
    let parts := JS.split_spaces (JS.trim line) in
    let usage :=
      let total := JS.or_float (JS.parseInt (parts !! 1%nat)) 0 in
      let used := JS.or_float (JS.parseInt (parts !! 2%nat)) 0 in
      let free := JS.or_float (JS.parseInt (parts !! 3%nat)) 0 in
      mkUsage total used free (percent_of used total) in
    match section with
    | SecNone => acc
    | SecCpu =>
        (section,
         mkStats (mkCpu (JS.or_float (parseFloat (parts !! 0%nat)) 0)
                        (JS.or_float (parseFloat (parts !! 1%nat)) 0)
                        (JS.or_float (parseFloat (parts !! 2%nat)) 0)
                        (cores (cpu stats)))
                 (mem stats) (disk stats) (uptime stats))
    | SecCores =>
        (section,
         mkStats (mkCpu (load1 (cpu stats)) (load5 (cpu stats)) (load15 (cpu stats))
                        (JS.or_float (JS.parseInt (Some (JS.trim line))) 1))
                 (mem stats) (disk stats) (uptime stats))
    | SecMem => (section, mkStats (cpu stats) usage (disk stats) (uptime stats))
    | SecDisk => (section, mkStats (cpu stats) (mem stats) usage (uptime stats))
    | SecUptime =>
        (section,
         mkStats (cpu stats) (mem stats) (disk stats)
                 (JS.Math_floor (JS.or_float (parseFloat (Some (JS.trim line))) 0)))
    end.

(** The values the loop starts from. *)
Definition stats_defaults : Stats :=
  mkStats (mkCpu 0 0 0 1) (mkUsage 0 0 0 0) (mkUsage 0 0 0 0) 0.

(** The body of [getSystemStats] after the command has run. *)
Definition parse_stats (output : string) : Stats :=
  (foldl stats_line (SecNone, stats_defaults) (JS.split JS.LF output)).2.

(** [getSystemStats()] *)
Definition getSystemStats : Async StatsResult :=
  try_catch
    (await result ← exec CmdStats;
     ret (StatsOk (parse_stats (Ssh2.stdout result))))
    (λ error, ret (StatsFailed error)).

End Operations.

(** *** The client object and its connection

    [this.client] is set as soon as [connect] is called and cleared only by
    [disconnect]; whether the client it holds has a connection (a socket
    that is writable) is known to the ssh2 library alone: it has none
    after a failed [connect] or when the peer has closed.  [linked] says so
    for the remote side of a session, and the library's part of [exec] is
    its contract: [Client.exec]
    on a client without a writable socket throws its own error [Not
    connected], and the errors it reports for a connected client are other
    ones.  A throw inside the executor of the promise rejects it just as
    an error handed to the callback does, so [exec] sees both as
    [Ssh2.ExecRefused]. *)

Definition ssh2_not_connected : string := "Not connected".

Class Ssh2_contract {R : Type} (shell : Command → R → Ssh2.ExecReply * R) (linked : R → bool) := {
  unlinked_throws : ∀ command r,
    linked r = false → (shell command r).1 = Ssh2.ExecRefused ssh2_not_connected;
  linked_reports_other_errors : ∀ command r msg,
    linked r = true → (shell command r).1 = Ssh2.ExecRefused msg → msg ≠ ssh2_not_connected
}.

(** A not-connected error: the one of the class, or the one of the
    library. *)
Definition not_connected_error (e : Error) : Prop :=
  e = NotConnected ∨ e = Ssh2Error ssh2_not_connected.

(** The session holds a client, and that client is connected. *)
Definition has_connected_client {R : Type} (linked : R → bool) (s : Session R) : Prop :=
  client s = true ∧ linked (remote s) = true.

(** A remote side that is nothing but its connection: a connected client
    answers every command with [active] and status 0. *)
Definition bare_link (command : Command) (up : bool) : Ssh2.ExecReply * bool :=
  if up then (Ssh2.ExecStarted [Ssh2.Stdout "active"] (Some (0, Some 0)), up)
  else (Ssh2.ExecRefused ssh2_not_connected, up).

(** The percentage of a usage record is the one computed from its own
    [used] and [total]. *)
Definition consistent (u : Usage) : Prop := percent u = percent_of (used u) (total u).

(** A sample of what the script of [getSystemStats] prints. *)
Definition example_stats_output : string :=
  let line (s : string) := s +:+ String JS.LF "" in
  line "===CPU===" +:+ line "0.52 0.58 0.59 1/389 20519" +:+
  line "===CORES===" +:+ line "2" +:+
  line "===MEM===" +:+ line "Mem: 1000 400 600" +:+
  line "===DISK===" +:+ line "/dev/vda1 25000 5000 20000 20% /" +:+
  line "===UPTIME===" +:+ line "86400.12".

(** What the script prints on a node whose percentages are not whole
    before rounding: 1 of 8 (12.5) and 2 of 3 (66.66..). *)
Definition uneven_stats_output : string :=
  let line (s : string) := s +:+ String JS.LF "" in
  line "===MEM===" +:+ line "Mem: 8 1 7" +:+
  line "===DISK===" +:+ line "/dev/vda1 3 2 1 67% /".

End NodeSSH.

(** ** A node at the other end

    The remote side is not part of the panel.  To state what the remote
    operations achieve, this is the node they are written for: a file
    system, the NAT redirect rules of [iptables] and [ip6tables] in chain
    order, a [hysteria check] whose output depends on the content of the
    file it is pointed at, a service probe, a firewall front end and a
    way to save the rules.  Every command starts, and closes at once;
    [cp] and [mv] fail when their source is missing; [iptables -D]
    deletes the first rule equal to the given one and [iptables -A]
    appends; a rule is accepted when its ports are integers with
    [0 <= first <= last <= 65535].

    The commands of [updateConfig] paste the configuration path into the
    command line without quotes.  Only a path that the shell reads as one
    word ([shell_word]) is the operand the code means; what the shell
    makes of any other path (white space splits it, a metacharacter is
    interpreted) is not decided here: it is the node's [unquoted]. *)

Module Host.
Import NodeSSH.

(** How the rules can be saved on the node: with [netfilter-persistent],
    with [iptables-save] and [ip6tables-save], or not at all. *)
Inductive RuleSaver := NetfilterPersistent | IptablesSave | NoRuleSaver.

Record Host := mkHost {
  files : gmap string string;
  check_output : option string → string;
  is_active_output : string;
  stats_output : string;
  nat4 : list Redirect;
  nat6 : list Redirect;
  history : list Command;
  (** the reply to a command whose path is not one word, and the files
      and chains it leaves *)
  unquoted : Command → gmap string string * list Redirect * list Redirect →
             Ssh2.ExecReply * (gmap string string * list Redirect * list Redirect);
  rule_saver : RuleSaver;
  (** the text [iptables-save] prints for a chain *)
  rules_text : list Redirect → string;
  (** whether [ufw] is installed and active, and the UDP ranges it allows *)
  ufw_active : bool;
  ufw_allowed : list (Z * Z)
}.

(** The node with its changeable parts replaced. *)
Definition with_state (fs : gmap string string) (chain4 chain6 : list Redirect)
    (commands : list Command) (allowed : list (Z * Z)) (h : Host) : Host :=
  mkHost fs (check_output h) (is_active_output h) (stats_output h) chain4 chain6 commands
         (unquoted h) (rule_saver h) (rules_text h) (ufw_active h) allowed.

Definition set_files (f : gmap string string → gmap string string) (h : Host) : Host :=
  with_state (f (files h)) (nat4 h) (nat6 h) (history h) (ufw_allowed h) h.

Definition set_nat (family : Family) (f : list Redirect → list Redirect) (h : Host) : Host :=
  match family with
  | IPv4 => with_state (files h) (f (nat4 h)) (nat6 h) (history h) (ufw_allowed h) h
  | IPv6 => with_state (files h) (nat4 h) (f (nat6 h)) (history h) (ufw_allowed h) h
  end.

Definition record (command : Command) (h : Host) : Host :=
  with_state (files h) (nat4 h) (nat6 h) (history h ++ [command]) (ufw_allowed h) h.

Definition accepted (rule : Redirect) : bool :=
  match dport_first rule, dport_last rule with
  | Some first, Some last =>
      (0 <=? first) && (first <=? last) && (last <=? 65535)
      && (0 <=? to_port rule) && (to_port rule <=? 65535)
  | _, _ => false
  end.

(** The chain without the first rule equal to [rule]. *)
Fixpoint delete_first (rule : Redirect) (chain : list Redirect) : list Redirect :=
  match chain with
  | [] => []
  | r :: rest => if decide (r = rule) then rest else r :: delete_first rule rest
  end.

(** The files the rules are saved to. *)
Definition rules_v4 : string := "/etc/iptables/rules.v4".
Definition rules_v6 : string := "/etc/iptables/rules.v6".

(** [ufw allow first:last/udp]: a range [ufw] takes. *)
Definition ufw_accepts (first last : option Z) : option (Z * Z) :=
  match first, last with
  | Some first, Some last =>
      if (0 <=? first) && (first <=? last) && (last <=? 65535) then Some (first, last) else None
  | _, _ => None
  end.

Definition run_line (h : Host) (line : ShellLine) : Host :=
  match line with
  | Iptables family op rule _ =>
      if accepted rule then
        match op with
        | Delete => set_nat family (delete_first rule) h
        | Append => set_nat family (λ chain, chain ++ [rule]) h
        end
      else h
  | UfwAllowUdp first last =>
      if ufw_active h then
        match ufw_accepts first last with
        | Some range =>
            with_state (files h) (nat4 h) (nat6 h) (history h) (ufw_allowed h ++ [range]) h
        | None => h
        end
      else h
  | SaveRules =>
      match rule_saver h with
      | NoRuleSaver => h
      | NetfilterPersistent | IptablesSave =>
          set_files (λ fs, <[rules_v6 := rules_text h (nat6 h)]>
                             (<[rules_v4 := rules_text h (nat4 h)]> fs)) h
      end
  | EchoPortHopping _ _ _ => h
  end.

Definition closes (code : Z) (out : string) : Ssh2.ExecReply :=
  Ssh2.ExecStarted [Ssh2.Stdout out] (Some (0, Some code)).

(** A character that is itself wherever it stands in a shell word: a
    letter, a digit, or one of [/ . _ -]. *)
Definition word_char (c : ascii) : bool :=
  let n := nat_of_ascii c in
  ((48 <=? n)%nat && (n <=? 57)%nat) || ((65 <=? n)%nat && (n <=? 90)%nat)
  || ((97 <=? n)%nat && (n <=? 122)%nat)
  || (n =? 47)%nat || (n =? 46)%nat || (n =? 95)%nat || (n =? 45)%nat.

(** A path the shell reads as one operand when it is pasted unquoted:
    not empty, not starting like an option, made of word characters. *)
Definition shell_word (p : string) : bool :=
  match p with
  | EmptyString => false
  | String c _ => negb (Ascii.eqb c "-") && forallb word_char (list_ascii_of_string p)
  end.
Arguments shell_word : simpl never.

(** A command whose path is not one word: the node's [unquoted] decides. *)
Definition run_unquoted (command : Command) (h : Host) : Ssh2.ExecReply * Host :=
  let '(reply, (fs, chain4, chain6)) := unquoted h command (files h, nat4 h, nat6 h) in
  (reply, with_state fs chain4 chain6 (history h) (ufw_allowed h) h).

Definition shell (command : Command) (h : Host) : Ssh2.ExecReply * Host :=
  let h := record command h in
  match command with
  | CmdIsActiveOrUnknown => (closes 0 (is_active_output h), h)
  | CmdRestartQuiet => (closes 0 "", h)
  | CmdRestart => (closes 0 "", h)
  | CmdIsActive => (closes 0 (is_active_output h), h)
  | CmdJournal => (closes 0 "", h)
  | CmdBackup p =>
      if shell_word p then
        (closes 0 "",
         match files h !! p with
         | Some content => set_files (insert (p +:+ ".bak") content) h
         | None => h
         end)
      else run_unquoted command h
  | CmdCheck p =>
      if shell_word p then (closes 0 (check_output h (files h !! p)), h)
      else run_unquoted command h
  | CmdRestore p =>
      if shell_word p then
        match files h !! (p +:+ ".bak") with
        | Some content =>
            (closes 0 "", set_files (λ fs, <[p := content]> (delete (p +:+ ".bak") fs)) h)
        | None =>
            (Ssh2.ExecStarted [Ssh2.Stderr "mv: cannot stat"] (Some (0, Some 1)), h)
        end
      else run_unquoted command h
  | CmdScript lines => (closes 0 "", foldl run_line h lines)
  | CmdStats => (closes 0 (stats_output h), h)
  end.

Definition sftp_write (path content : string) (h : Host) : Ssh2.SftpReply unit * Host :=
  (Ssh2.SftpClosed tt, set_files (insert path content) h).

Definition sftp_read (path : string) (h : Host) : Ssh2.SftpReply string * Host :=
  match files h !! path with
  | Some content => (Ssh2.SftpClosed content, h)
  | None => (Ssh2.SftpStreamError "No such file", h)
  end.

(** The seven forms of the redirect rule the script handles: the
    interface-agnostic one and one per legacy interface. *)
Definition rule_forms (first last mainPort : Z) : list Redirect :=
  mkRedirect None (Some first) (Some last) mainPort
  :: ((λ iface, mkRedirect (Some iface) (Some first) (Some last) mainPort) <$> legacy_ifaces).

(** The rules of a chain that redirect exactly the range [first:last]. *)
Definition for_range (first last : Z) (chain : list Redirect) : list Redirect :=
  filter (λ r, dport_first r = Some first ∧ dport_last r = Some last) chain.

(** How often a rule occurs in a chain. *)
Definition occurrences (rule : Redirect) (chain : list Redirect) : nat :=
  length (filter (λ r, r = rule) chain).

(** The chain after the deletions of the script. *)
Definition purge (forms : list Redirect) (chain : list Redirect) : list Redirect :=
  foldl (λ chain rule, delete_first rule chain) chain forms.

(** Whether a rule redirects UDP port [p]. *)
Definition covers (p : Z) (rule : Redirect) : bool :=
  match dport_first rule, dport_last rule with
  | Some first, Some last => (first <=? p) && (p <=? last)
  | _, _ => false
  end.

(** A connected session to [h]. *)
Definition connected (h : Host) : Session Host := mkSession true h [].

(** [Number] on the strings it is used on here: the empty string is 0 and
    a string of decimal digits is its value; this sample maps every other
    string to [None]. *)
Definition Number_decimal (s : string) : option Z :=
  if bool_decide (s = "") then Some 0
  else if forallb (λ c, bool_decide (is_Some (JS.digit_value 10 c))) (list_ascii_of_string s)
       then JS.digits 10 s 0 false
       else None.

(** Sample nodes and hosts. *)
Definition example_node : Node :=
  {| name := "edge-1"; ip := "203.0.113.7"; port := None; paths_config := None; ssh := None |}.


Definition strict_check (content : option string) : string :=
  match content with
  | Some "listen: :443" => "config ok"
  | Some _ => "FATAL error: yaml: unmarshal errors"
  | None => "FATAL error: open config: no such file or directory"
  end.

(** A shell that splits a path at its white space: [cp] with several
    operands and a last one that is no directory fails, and [|| true]
    hides it; [hysteria check] is pointed at the first piece and reports
    an error; [mv] fails likewise.  Nothing is changed. *)
Definition word_splitting (command : Command)
    (state : gmap string string * list Redirect * list Redirect)
  : Ssh2.ExecReply * (gmap string string * list Redirect * list Redirect) :=
  match command with
  | CmdCheck _ => (closes 0 "FATAL failed to read server config: error", state)
  | CmdRestore _ =>
      (Ssh2.ExecStarted [Ssh2.Stderr "mv: target is not a directory"] (Some (0, Some 1)), state)
  | _ => (closes 0 "", state)
  end.

(** A sample of what [iptables-save] prints: one line per rule. *)
Definition rule_lines (chain : list Redirect) : string :=
  foldr (λ _ text, "-A PREROUTING -p udp -j REDIRECT" +:+ String JS.LF text) "" chain.

(** A node with nothing installed yet, and one that runs a valid
    configuration. *)
Definition fresh_host : Host :=
  mkHost ∅ strict_check "inactive" "" [] [] [] word_splitting IptablesSave rule_lines false [].

Definition running_host : Host :=
  mkHost {[ "/etc/hysteria/config.yaml" := "listen: :443" ]} strict_check "active" "" [] [] []
         word_splitting NetfilterPersistent rule_lines true [].

(** A node on which an older panel left a rule bound to [eth0], next to a
    rule for another range. *)
Definition legacy_host : Host :=
  mkHost ∅ strict_check "active" ""
         [mkRedirect (Some "eth0") (Some 20000) (Some 50000) 443;
          mkRedirect None (Some 10000) (Some 19999) 443]
         [] [] word_splitting IptablesSave rule_lines true [].

(** A node whose statistics script prints [uneven_stats_output]. *)
Definition uneven_host : Host :=
  mkHost ∅ strict_check "active" uneven_stats_output [] [] []
         word_splitting NoRuleSaver rule_lines false [].


End Host.

(** ** SSHPool: the statistics report *)

Module SSHPoolStats.
Import SSHPool.

(** One element of the [connections] array of the report. *)
Record ConnectionStats := mkConnectionStats {
  stat_nodeId : string;
  stat_name : string;
  stat_host : string;
  stat_alive : bool;
  stat_idleMs : Z;
  stat_useCount : Z;
  stat_uptimeMs : Z
}.

Record Stats := mkStats {
  total : nat;
  stats_config : Config;
  stats_connections : list ConnectionStats
}.

(** The object pushed for one entry; [alive] is
    [conn.client._sock?.writable || false]. *)
Definition connection_stats (now : Z) (st : Pool) (entry : string * Meta) : ConnectionStats :=
  {| stat_nodeId := entry.1;
     stat_name := nodeName entry.2;
     stat_host := host entry.2;
     stat_alive := bool_decide (client entry.2 ∈ writable st);
     stat_idleMs := now - lastUsed entry.2;
     stat_useCount := useCount entry.2;
     stat_uptimeMs := now - createdAt entry.2 |}.

(** [getStats()], called at time [now].  The array lists the entries in
    the order [map_to_list] gives them. *)
Definition getStats (now : Z) (st : Pool) : Stats :=
  {| total := size (connections st);
     stats_config := config st;
     stats_connections := connection_stats now st <$> map_to_list (connections st) |}.

End SSHPoolStats.

(** ** SSHPool: a run of acquires *)

Module SSHPoolRuns.
Import SSHPool.

Section Environment.

Variable decrypt : string → string.
Variable net : nat → ConnEvent.

(** [getConnection(node)] awaited once at each of the [times], in order;
    [None] as soon as one of the calls rejects. *)
Fixpoint getConnection_each (node : Node) (times : list Z) (st : Pool) : option Pool :=
  match times with
  | [] => Some st
  | now :: later =>
      match getConnection decrypt net node now st with
      | Some (Resolved _, st') => getConnection_each node later st'
      | _ => None
      end
  end.

End Environment.

End SSHPoolRuns.

(** ** SSHPool: handlers that outlive their promise *)

Module SSHPoolBackground.
Import SSHPool.

Section Environment.

Variable decrypt : string → string.
Variable net : nat → ConnEvent.

(** The ['error'] handler of client [c], attached by
    [createConnection(node, retryCount)], when it runs after the promise of
    that call has settled: the same code, in which [resolve] and [reject]
    now do nothing.  [None] stands for a retry that does not settle. *)
Definition late_error (c : nat) (node : Node) (retryCount : Z) (st : Pool) : option Pool :=
  let st := on_error c node st in
  if decide (retryCount < maxRetries (config st)) then
    let delay := 2 ^ retryCount * 500 in
    match createConnection decrypt net node (retryCount + 1) (sleep delay st) with
    | Some (_, st') => Some st'
    | None => None
    end
  else Some st.

End Environment.

End SSHPoolBackground.

(** ** NodeSSH: the network speed probe *)

Module NetworkSpeed.
Import NodeSSH.

(** What one reading of [/proc/net/dev] returns. *)
Record NetStats := mkNetStats { rx : float; tx : float; time : Z }.

(** The [error] field of a failed probe: the fixed text [Network interface
    not found], or the message of the error caught. *)
Inductive SpeedError :=
| InterfaceNotFound
| Caught (error : Error).

(** [{ success: true, rx, tx }] or [{ success: false, error }] *)
Inductive SpeedResult :=
| SpeedOk (rxSpeed txSpeed : float)
| SpeedFailed (error : SpeedError).

(** What follows the first colon of a string, if it has one. *)
Fixpoint after_colon (s : string) : option string :=
  match s with
  | EmptyString => None
  | String c rest => if Ascii.eqb c ":" then Some rest else after_colon rest
  end.

(** [line.replace(/^[^:]+:\s*/, '')]: a non-empty run of characters other
    than a colon, the colon and the white space after it are dropped from
    the front; a line that does not start so is left as it is. *)
Definition strip_interface (line : string) : string :=
  match line with
  | EmptyString => line
  | String c rest =>
      if Ascii.eqb c ":" then line
      else match after_colon rest with
           | Some data => JS.trimStart data
           | None => line
           end
  end.

(** The command of the probe. *)
Definition net_dev_command : string :=
  "cat /proc/net/dev | grep -E '(eth|ens|enp|eno)' | head -1".

Section Operations.

Context {R : Type}.

(** The node's reply to [client.exec(command, ..)] for a command given as
    text. *)
Variable shell_text : string → R → Ssh2.ExecReply * R.

Notation "'await' x ← m ; k" := (bind m (λ x, k))
  (at level 10, x name, m at level 100, k at level 200).

(** [exec(command)], on the text of the command. *)
Definition exec_text (command : string) : Async Ssh2.ExecResult :=
  λ s,
    if negb (client s) then (Thrown NotConnected, s)
    else
      let '(reply, r) := shell_text command (remote s) in
      let s := mkSession (client s) r (waited s) in
      match reply with
      | Ssh2.ExecRefused msg => (Thrown (Ssh2Error msg), s)
      | Ssh2.ExecStarted chunks (Some (_, code)) =>
          (Returned (Ssh2.mkExecResult code (Ssh2.collect_stdout chunks)
                                       (Ssh2.collect_stderr chunks)), s)
      | Ssh2.ExecStarted chunks None => (Pending, s)
      end.

(** The inner function [getNetStats]; [now] is what [Date.now()] returns
    when the reading is taken. *)
Definition getNetStats (now : Z) : Async (option NetStats) :=
  await result ← exec_text net_dev_command;
  let line := JS.trim (Ssh2.stdout result) in
  if bool_decide (line = "") then ret None
  else
    let data := strip_interface line in
    let parts := JS.split_spaces (JS.trim data) in
    let rxBytes := JS.or_float (JS.parseInt (parts !! 0%nat)) 0 in
    let txBytes := JS.or_float (JS.parseInt (parts !! 8%nat)) 0 in
    ret (Some (mkNetStats rxBytes txBytes now)).

(** [getNetworkSpeed()]; [now1] and [now2] are the times of the two
    readings. *)
Definition getNetworkSpeed (now1 now2 : Z) : Async SpeedResult :=
  try_catch
    (await stats1 ← getNetStats now1;
     match stats1 with
     | None => ret (SpeedFailed InterfaceNotFound)
     | Some stats1 =>
         await _ ← sleep 1000;
         await stats2 ← getNetStats now2;
         match stats2 with
         | None => ret (SpeedFailed InterfaceNotFound)
         | Some stats2 =>
             let timeDiff :=
               PrimFloat.div (PrimFloat.sub (JS.of_Z (time stats2)) (JS.of_Z (time stats1))) 1000 in
             let rxSpeed := JS.Math_round (PrimFloat.div (PrimFloat.sub (rx stats2) (rx stats1)) timeDiff) in
             let txSpeed := JS.Math_round (PrimFloat.div (PrimFloat.sub (tx stats2) (tx stats1)) timeDiff) in
             ret (SpeedOk rxSpeed txSpeed)
         end
     end)
    (λ error, ret (SpeedFailed (Caught error))).

End Operations.

(** A node whose first matching interface line never changes, and one
    without a matching interface. *)
Definition steady_line : string :=
  "  eth0: 12345678 123 0 0 0 0 0 0 87654321 123 0 0 0 0 0 0".

Definition steady_node : string → list string → Ssh2.ExecReply * list string :=
  λ command log,
    (Ssh2.ExecStarted [Ssh2.Stdout steady_line; Ssh2.Stdout (String JS.LF "")] (Some (0, Some 0)),
     log ++ [command]).

Definition no_interface_node : string → list string → Ssh2.ExecReply * list string :=
  λ command log, (Ssh2.ExecStarted [] (Some (0, Some 0)), log ++ [command]).

End NetworkSpeed.

(** ** Notions used to state the properties of the statistics parser *)

Module StatsNotions.
Import NodeSSH.

(** A line that contains none of the five section markers. *)
Definition marker_free (line : string) : Prop :=
  JS.includes "===CPU===" line = false ∧
  JS.includes "===CORES===" line = false ∧
  JS.includes "===MEM===" line = false ∧
  JS.includes "===DISK===" line = false ∧
  JS.includes "===UPTIME===" line = false.

(** A number that is not [NaN]. *)
Definition is_number (x : float) : Prop := JS.is_nan x = false.

(** The sizes of a usage record are numbers. *)
Definition sizes_are_numbers (u : Usage) : Prop :=
  is_number (total u) ∧ is_number (used u) ∧ is_number (free u).

(** The load averages and sizes are numbers, and the core count is a
    number other than zero. *)
Definition clean (stats : Stats) : Prop :=
  is_number (load1 (cpu stats)) ∧ is_number (load5 (cpu stats)) ∧
  is_number (load15 (cpu stats)) ∧
  is_number (cores (cpu stats)) ∧ PrimFloat.eqb (cores (cpu stats)) 0 = false ∧
  sizes_are_numbers (mem stats) ∧ sizes_are_numbers (disk stats).

(** The whole number a double is, when it is one: the value of
    [± m * 2^e] when that is an integer. *)
Definition whole_value (x : float) : option Z :=
  match Prim2SF x with
  | S754_zero _ => Some 0
  | S754_finite s m e =>
      let sm := if s then Z.neg m else Z.pos m in
      if 0 <=? e then Some (sm * 2 ^ e)
      else if Z.pos m mod 2 ^ (- e) =? 0 then Some (sm / 2 ^ (- e)) else None
  | _ => None
  end.

(** [r] is [x] rounded to the nearest whole number, the upper one at a tie:
    for a finite [x = ± m * 2^e], [r] is a whole number [n] with [n - 1/2
    <= x < n + 1/2] (so [n = x] when [x] is whole); zeros, infinities and
    [NaN] are left as they are. *)
Definition nearest_whole (x r : float) : Prop :=
  match Prim2SF x with
  | S754_finite s m e =>
      let sm := if s then Z.neg m else Z.pos m in
      ∃ n : Z, whole_value r = Some n ∧
               if 0 <=? e then n = sm * 2 ^ e
               else (2 * n - 1) * 2 ^ (- e) ≤ 2 * sm < (2 * n + 1) * 2 ^ (- e)
  | _ => r = x
  end.

(** The percentage of a usage record is [used / total * 100] rounded to
    the nearest whole number when [total] is positive, and [0] otherwise. *)
Definition percent_rounded (u : Usage) : Prop :=
  if PrimFloat.ltb 0 (total u)
  then nearest_whole (PrimFloat.mul (PrimFloat.div (used u) (total u)) 100) (percent u)
  else percent u = 0%float.

End StatsNotions.

(** ** The configuration generator *)

Module ConfigGenerator.

(** A JavaScript value as [yaml.stringify] receives it.  An object lists
    its properties in the order they were added. *)
#[warnings="-register-all"] Inductive Value :=
| VStr (s : string)
| VNum (n : Z)
| VBool (b : bool)
| VArr (items : list Value)
| VObj (props : list (string * Value)).

(** The fields of a node the generator reads. *)
Record Node := mkNode {
  port : option Z;
  domain : option string;
  sni : option string;
  paths_cert : option string;
  paths_key : option string;
  statsPort : option Z;
  statsSecret : option string
}.

Record Options := mkOptions { authInsecure : option bool }.

(** The template [:${n}] for a number that may be missing; the number is
    an integer, printed in decimal (ports are far below 10^21). *)
Definition colon_port (n : option Z) : string :=
  ":" +:+ match n with
          | Some n => pretty n
          | None => "undefined"
          end.

(** [obj.key] *)
Fixpoint get (key : string) (props : list (string * Value)) : option Value :=
  match props with
  | [] => None
  | (k, v) :: rest => if String.eqb k key then Some v else get key rest
  end.

(** [obj.key = value]: a new property goes last, an existing one keeps
    its place. *)
Fixpoint assign (key : string) (value : Value) (props : list (string * Value))
  : list (string * Value) :=
  match props with
  | [] => [(key, value)]
  | (k, v) :: rest =>
      if String.eqb k key then (k, value) :: rest else (k, v) :: assign key value rest
  end.

Definition sniff : Value :=
  VObj [("enable", VBool true); ("timeout", VStr "2s"); ("rewriteDomain", VBool false);
        ("tcpPorts", VStr "80,443,8000-9000"); ("udpPorts", VStr "443,80,53")].

Definition quic : Value :=
  VObj [("initStreamReceiveWindow", VNum 8388608); ("maxStreamReceiveWindow", VNum 8388608);
        ("initConnReceiveWindow", VNum 20971520); ("maxConnReceiveWindow", VNum 20971520);
        ("maxIdleTimeout", VStr "60s"); ("maxIncomingStreams", VNum 256);
        ("disablePathMTUDiscovery", VBool false)].

Definition auth (authUrl : string) (authInsecure : bool) : Value :=
  VObj [("type", VStr "http");
        ("http", VObj [("url", VStr authUrl); ("insecure", VBool authInsecure)])].

Definition masquerade : Value :=
  VObj [("type", VStr "proxy");
        ("proxy", VObj [("url", VStr "https://www.google.com"); ("rewriteHost", VBool true)])].

Definition acl : Value :=
  VObj [("inline", VArr [VStr "reject(geoip:cn)"; VStr "reject(geoip:private)"])].

(** Truthiness of an optional number used as a condition. *)
Definition truthy_num (o : option Z) : option Z :=
  match o with
  | Some n => if decide (n = 0) then None else Some n
  | None => None
  end.

(** [if (node.statsPort && node.statsSecret) config.trafficStats = ..] *)
Definition with_trafficStats (node : Node) (config : list (string * Value))
  : list (string * Value) :=
  match truthy_num (statsPort node), JS.truthy (statsSecret node) with
  | Some _, Some secret =>
      assign "trafficStats"
             (VObj [("listen", VStr (colon_port (statsPort node))); ("secret", VStr secret)])
             config
  | _, _ => config
  end.

(** The object [generateNodeConfig] hands to [yaml.stringify]. *)
Definition nodeConfig (node : Node) (authUrl : string) (options : Options)
  : list (string * Value) :=
  let authInsecure := default true (authInsecure options) in
  let config :=
    [("listen", VStr (colon_port (port node)));
     ("sniff", sniff);
     ("quic", quic);
     ("auth", auth authUrl authInsecure);
     ("ignoreClientBandwidth", VBool false);
     ("masquerade", masquerade);
     ("acl", acl)] in
  let config :=
    match JS.truthy (domain node) with
    | Some domain =>
        assign "acme"
               (VObj [("domains", VArr [VStr domain]);
                      ("email", VStr ("acme@" +:+ domain));
                      ("ca", VStr "letsencrypt");
                      ("listenHost", VStr "0.0.0.0")])
               config
    | None =>
        let tls :=
          [("cert", VStr (JS.or_str (paths_cert node) "/etc/hysteria/cert.pem"));
           ("key", VStr (JS.or_str (paths_key node) "/etc/hysteria/key.pem"))] in
        let tls :=
          match JS.truthy (sni node) with
          | Some _ => assign "sniGuard" (VStr "disable") tls
          | None => tls
          end in
        assign "tls" (VObj tls) config
    end in
  with_trafficStats node config.

(** The object [generateNodeConfigACME] hands to [yaml.stringify]. *)
Definition nodeConfigACME (node : Node) (authUrl domain email : string) (options : Options)
  : list (string * Value) :=
  let authInsecure := default true (authInsecure options) in
  let config :=
    [("listen", VStr (colon_port (port node)));
     ("acme", VObj [("domains", VArr [VStr domain]); ("email", VStr email)]);
     ("sniff", sniff);
     ("quic", quic);
     ("auth", auth authUrl authInsecure);
     ("ignoreClientBandwidth", VBool false);
     ("masquerade", masquerade);
     ("acl", acl)] in
  with_trafficStats node config.

Section Yaml.

(** [yaml.stringify] *)
Variable yaml_stringify : Value → string.

Definition generateNodeConfig (node : Node) (authUrl : string) (options : Options) : string :=
  yaml_stringify (VObj (nodeConfig node authUrl options)).

Definition generateNodeConfigACME (node : Node) (authUrl domain email : string)
    (options : Options) : string :=
  yaml_stringify (VObj (nodeConfigACME node authUrl domain email options)).

End Yaml.

(** A node served under a domain, with a custom SNI and traffic statistics. *)
Definition example_node : Node :=
  {| port := Some 443; domain := Some "edge.example.org"; sni := Some "www.example.com";
     paths_cert := None; paths_key := None;
     statsPort := Some 9999; statsSecret := Some "s3cret" |}.

End ConfigGenerator.

(** * Properties of the connection pool *)

Section PoolFacts.
Import SSHPool.
Set Default Proof Using "Type".

(** ** [removeConnection] *)

Lemma removeConnection_lookup nodeId st :
  connections (removeConnection nodeId st) !! nodeId = None.
Proof.
  unfold removeConnection.
  destruct (connections st !! nodeId) eqn:E; simpl; [apply lookup_delete_eq | done].
Qed.

Lemma removeConnection_lookup_ne nodeId k st :
  k ≠ nodeId → connections (removeConnection nodeId st) !! k = connections st !! k.
Proof.
  intros Hne. unfold removeConnection.
  destruct (connections st !! nodeId); simpl; [by rewrite lookup_delete_ne | done].
Qed.

Lemma removeConnection_config nodeId st : config (removeConnection nodeId st) = config st.
Proof. unfold removeConnection. by destruct (connections st !! nodeId). Qed.

Lemma removeConnection_ends nodeId st conn :
  connections st !! nodeId = Some conn →
  client conn ∈ ended (removeConnection nodeId st) ∧
  client conn ∉ writable (removeConnection nodeId st).
Proof.
  intros E. unfold removeConnection. rewrite E. simpl. split.
  - apply elem_of_app. right. by left.
  - rewrite elem_of_difference, elem_of_singleton. by intros [_ []].
Qed.

Lemma removeConnection_ended_mono nodeId st c :
  c ∈ ended st → c ∈ ended (removeConnection nodeId st).
Proof.
  unfold removeConnection. destruct (connections st !! nodeId); simpl; [|done].
  intros Hc. apply elem_of_app. by left.
Qed.

Lemma removeConnection_writable_mono nodeId st c :
  c ∉ writable st → c ∉ writable (removeConnection nodeId st).
Proof.
  unfold removeConnection. destruct (connections st !! nodeId); simpl; [|done].
  intros Hc [? _]%elem_of_difference. done.
Qed.

Lemma removeConnection_subseteq nodeId st k e :
  connections (removeConnection nodeId st) !! k = Some e → connections st !! k = Some e.
Proof.
  destruct (decide (k = nodeId)) as [->|Hne].
  - by rewrite removeConnection_lookup.
  - by rewrite removeConnection_lookup_ne.
Qed.

(** ** The idle sweep *)

Lemma cleanup_entry_config now st entry : config (cleanup_entry now st entry) = config st.
Proof. unfold cleanup_entry. case_decide; [apply removeConnection_config | done]. Qed.

Lemma cleanup_loop_config now l st : config (foldl (cleanup_entry now) st l) = config st.
Proof.
  revert st. induction l as [|entry l IH]; intros st; simpl; [done|].
  by rewrite IH, cleanup_entry_config.
Qed.

Lemma cleanup_loop_ended_mono now l st c :
  c ∈ ended st → c ∈ ended (foldl (cleanup_entry now) st l).
Proof.
  revert st. induction l as [|entry l IH]; intros st Hc; simpl; [done|].
  apply IH. unfold cleanup_entry. case_decide; [by apply removeConnection_ended_mono | done].
Qed.

Lemma cleanup_loop_writable_mono now l st c :
  c ∉ writable st → c ∉ writable (foldl (cleanup_entry now) st l).
Proof.
  revert st. induction l as [|entry l IH]; intros st Hc; simpl; [done|].
  apply IH. unfold cleanup_entry. case_decide; [by apply removeConnection_writable_mono | done].
Qed.

Lemma cleanup_loop_absent now l st (k : string) :
  connections st !! k = None → connections (foldl (cleanup_entry now) st l) !! k = None.
Proof.
  revert st. induction l as [|entry l IH]; intros st Hk; simpl; [done|].
  apply IH. unfold cleanup_entry. case_decide; [|done].
  destruct (connections (removeConnection entry.1 st) !! k) eqn:E; [|done].
  apply removeConnection_subseteq in E. congruence.
Qed.

Lemma agrees_cons entry l st : agrees (entry :: l) st → agrees l st.
Proof. intros H k v v' Hin. apply H. by right. Qed.

Lemma agrees_cleanup_entry now l st entry :
  agrees l st → agrees l (cleanup_entry now st entry).
Proof.
  intros H k v v' Hin. unfold cleanup_entry. case_decide; [|by apply H].
  intros E. apply removeConnection_subseteq in E. by eapply H.
Qed.

Lemma cleanup_loop_keeps now l st (k : string) e :
  agrees l st →
  connections st !! k = Some e →
  now - lastUsed e ≤ maxIdleTime (config st) →
  connections (foldl (cleanup_entry now) st l) !! k = Some e.
Proof.
  revert st. induction l as [|[k0 v0] l IH]; intros st Hl Hk Hfresh; simpl; [done|].
  apply IH.
  - apply agrees_cleanup_entry. by eapply agrees_cons.
  - unfold cleanup_entry. simpl. case_decide as Hidle; [|done].
    destruct (decide (k = k0)) as [->|Hne].
    + assert (e = v0) as -> by (eapply Hl; [left|done]). lia.
    + by rewrite removeConnection_lookup_ne.
  - by rewrite cleanup_entry_config.
Qed.

Lemma cleanup_loop_evicts now l st (k : string) e :
  agrees l st →
  (k, e) ∈ l →
  connections st !! k = Some e →
  now - lastUsed e > maxIdleTime (config st) →
  connections (foldl (cleanup_entry now) st l) !! k = None ∧
  client e ∈ ended (foldl (cleanup_entry now) st l) ∧
  client e ∉ writable (foldl (cleanup_entry now) st l).
Proof.
  revert st. induction l as [|[k0 v0] l IH]; intros st Hl Hin Hk Hidle; simpl.
  { by apply elem_of_nil in Hin. }
  destruct (decide (k = k0)) as [->|Hne].
  - assert (e = v0) as -> by (eapply Hl; [left|done]).
    assert (cleanup_entry now st (k0, v0) = removeConnection k0 st) as ->.
    { unfold cleanup_entry. simpl. by rewrite decide_True. }
    destruct (removeConnection_ends k0 st v0 Hk) as [He Hw].
    split; [|split].
    + apply cleanup_loop_absent, removeConnection_lookup.
    + by apply cleanup_loop_ended_mono.
    + by apply cleanup_loop_writable_mono.
  - apply elem_of_cons in Hin as [[= ? ?]|Hin]; [done|].
    apply IH; [apply agrees_cleanup_entry; by eapply agrees_cons|done| |].
    + unfold cleanup_entry. simpl. case_decide; [|done].
      by rewrite removeConnection_lookup_ne.
    + by rewrite cleanup_entry_config.
Qed.

Lemma agrees_map_to_list st : agrees (map_to_list (connections st)) st.
Proof.
  intros k v v' Hin E. apply elem_of_map_to_list in Hin. congruence.
Qed.

(** The sweep does not close the socket of a session it keeps. *)
Lemma cleanup_loop_keeps_writable now l st c :
  agrees l st →
  (∀ k v, (k, v) ∈ l → now - lastUsed v > maxIdleTime (config st) → client v ≠ c) →
  c ∈ writable st →
  c ∈ writable (foldl (cleanup_entry now) st l).
Proof.
  revert st. induction l as [|[k0 v0] l IH]; intros st Hl Hother Hw; simpl; [done|].
  apply IH.
  - apply agrees_cleanup_entry. by eapply agrees_cons.
  - rewrite cleanup_entry_config. intros k v Hin. apply (Hother k v). by right.
  - unfold cleanup_entry. simpl. case_decide as Hidle; [|done].
    unfold removeConnection. destruct (connections st !! k0) as [conn|] eqn:E; [|done].
    simpl. assert (conn = v0) as -> by (eapply Hl; [left|done]).
    assert (client v0 ≠ c) by (apply (Hother k0 v0); [left|done]). set_solver.
Qed.

Lemma cleanup_frame_connects now l st :
  connects (foldl (cleanup_entry now) st l) = connects st.
Proof.
  revert st. induction l as [|entry l IH]; intros st; simpl; [done|].
  rewrite IH. unfold cleanup_entry. case_decide; [|done].
  unfold removeConnection. by destruct (connections st !! entry.1).
Qed.

(** ** [createConnection] *)

Variable decrypt : string → string.
Variable net : nat → ConnEvent.

Lemma createConnection_fuel_unfold fuel node retryCount st :
  createConnection_fuel decrypt net (S fuel) node retryCount st =
  match authentication decrypt node with
  | None => Some (Rejected NoKeyOrPassword, (new_client st).2)
  | Some auth =>
      match net (clients st) with
      | EvReady now =>
          Some (Resolved (clients st),
                on_ready (clients st) node now (sock_open (clients st) (connecting node auth st)))
      | EvError msg =>
          if decide (retryCount < maxRetries (config st)) then
            createConnection_fuel decrypt net fuel node (retryCount + 1)
              (sleep (2 ^ retryCount * 500) (on_error (clients st) node (connecting node auth st)))
          else Some (Rejected (TransportError msg), on_error (clients st) node (connecting node auth st))
      | EvTimer =>
          Some (Rejected (ConnectionTimeout (connectTimeout (config st))),
                on_connect_timer (clients st) (connecting node auth st))
      end
  end.
Proof. reflexivity. Qed.

(** The retry recursion always settles: the fuel given by [retry_budget] is
    never used up. *)
Lemma createConnection_fuel_settles fuel node retryCount st :
  (Z.to_nat (maxRetries (config st) - retryCount) < fuel)%nat →
  ∃ r st', createConnection_fuel decrypt net fuel node retryCount st = Some (r, st').
Proof.
  revert retryCount st. induction fuel as [|fuel IH]; intros retryCount st Hfuel; [lia|].
  rewrite createConnection_fuel_unfold.
  destruct (authentication decrypt node) as [auth|]; [|eauto].
  destruct (net (clients st)); [eauto| |eauto].
  case_decide; [|eauto]. apply IH. simpl. lia.
Qed.

Lemma createConnection_settles node retryCount st :
  ∃ r st', createConnection decrypt net node retryCount st = Some (r, st').
Proof. apply createConnection_fuel_settles. unfold retry_budget. lia. Qed.

Lemma getConnection_settles node now st :
  ∃ r st', getConnection decrypt net node now st = Some (r, st').
Proof.
  unfold getConnection. destruct (connections st !! nodeId_of node); [|apply createConnection_settles].
  case_decide; [eauto | apply createConnection_settles].
Qed.

Lemma backoff_S retryCount n :
  0 ≤ retryCount →
  backoff retryCount (S n) = 2 ^ retryCount * 500 :: backoff (retryCount + 1) n.
Proof.
  intros Hrc. unfold backoff. simpl. rewrite Z.add_0_r. f_equal.
  rewrite <- seq_shift, <- list_fmap_compose. apply list_fmap_ext.
  intros _ k _. simpl. do 2 f_equal. lia.
Qed.

Lemma backoff_sorted retryCount n : 0 ≤ retryCount → StronglySorted Z.lt (backoff retryCount n).
Proof.
  intros Hrc. unfold backoff. generalize 0%nat as i.
  induction n as [|n IHn]; intros i; simpl; constructor; [apply IHn|].
  apply Forall_forall. intros d [j [-> [Hj _]%elem_of_seq]]%list_elem_of_fmap.
  apply Z.mul_lt_mono_pos_r; [lia|]. apply Z.pow_lt_mono_r; lia.
Qed.

(** When every attempt from client [clients st] on ends in ['error'], the
    call makes [maxRetries - retryCount] further attempts, waits the
    doubling delays between them, and rejects with the error of the last
    one. *)
Lemma createConnection_fuel_all_errors fuel node auth retryCount st :
  authentication decrypt node = Some auth →
  0 ≤ retryCount ≤ maxRetries (config st) →
  (Z.to_nat (maxRetries (config st) - retryCount) < fuel)%nat →
  (∀ c, (clients st ≤ c ≤ clients st + Z.to_nat (maxRetries (config st) - retryCount))%nat →
        ∃ msg, net c = EvError msg) →
  ∃ msg st',
    createConnection_fuel decrypt net fuel node retryCount st
      = Some (Rejected (TransportError msg), st') ∧
    net (clients st + Z.to_nat (maxRetries (config st) - retryCount))%nat = EvError msg ∧
    length (connects st') = (length (connects st) + S (Z.to_nat (maxRetries (config st) - retryCount)))%nat ∧
    sleeps st' = sleeps st ++ backoff retryCount (Z.to_nat (maxRetries (config st) - retryCount)) ∧
    connections st' !! nodeId_of node = None.
Proof.
  intros Hauth. revert retryCount st.
  induction fuel as [|fuel IH]; intros retryCount st Hrc Hfuel Hnet; [lia|].
  rewrite createConnection_fuel_unfold, Hauth.
  destruct (Hnet (clients st)) as [msg Hmsg]; [lia|]. rewrite Hmsg.
  case_decide as Hlt.
  - set (st1 := sleep _ _).
    destruct (IH (retryCount + 1) st1) as (msg' & st' & Hrun & Hlast & Hlen & Hsl & Hreg).
    + simpl. lia.
    + simpl. lia.
    + intros c Hc. apply Hnet. simpl in Hc. lia.
    + exists msg', st'. simpl in *.
      replace (Z.to_nat (maxRetries (config st) - retryCount))
        with (S (Z.to_nat (maxRetries (config st) - (retryCount + 1)))) by lia.
      split; [done|]. split; [|split; [|split; [|done]]].
      * rewrite <- Hlast. f_equal. lia.
      * rewrite Hlen, length_app. simpl. lia.
      * rewrite Hsl, backoff_S by lia. by rewrite <- app_assoc.
  - exists msg, (on_error (clients st) node (connecting node auth st)).
    replace (Z.to_nat (maxRetries (config st) - retryCount)) with 0%nat by lia.
    split; [done|]. split; [by rewrite Nat.add_0_r|]. simpl.
    split; [rewrite length_app; simpl; lia|]. split; [by rewrite app_nil_r|].
    apply lookup_delete_eq.
Qed.

(** ** The registry invariant *)

Lemma well_formed_empty cfg : well_formed (empty_pool cfg).
Proof.
  split; [|split]; simpl.
  - intros k e E. by rewrite lookup_empty in E.
  - intros c Hc. set_solver.
  - intros c node E. by rewrite lookup_empty in E.
Qed.

(** Steps that only drop entries, and leave clients, handlers and reports
    alone, keep the invariant. *)
Lemma well_formed_shrink st st' :
  (∀ k e, connections st' !! k = Some e → connections st !! k = Some e) →
  reported st' = reported st → owner st' = owner st → clients st' = clients st →
  well_formed st → well_formed st'.
Proof.
  intros Hsub Hr Ho Hc (Hent & Hrep & Hown). unfold well_formed. rewrite Hr, Ho, Hc.
  split; [|done]. intros k e E. by apply Hent, Hsub.
Qed.

Lemma well_formed_client_end c st : well_formed st → well_formed (client_end c st).
Proof. by apply well_formed_shrink. Qed.

Lemma well_formed_sleep delay st : well_formed st → well_formed (sleep delay st).
Proof. by apply well_formed_shrink. Qed.

Lemma well_formed_set_writable f st : well_formed st → well_formed (set_writable f st).
Proof. by apply well_formed_shrink. Qed.

Lemma removeConnection_frame nodeId st :
  reported (removeConnection nodeId st) = reported st ∧
  owner (removeConnection nodeId st) = owner st ∧
  clients (removeConnection nodeId st) = clients st.
Proof. unfold removeConnection. by destruct (connections st !! nodeId). Qed.

Lemma well_formed_removeConnection nodeId st :
  well_formed st → well_formed (removeConnection nodeId st).
Proof.
  destruct (removeConnection_frame nodeId st) as (? & ? & ?).
  apply well_formed_shrink; [apply removeConnection_subseteq|done..].
Qed.

Lemma well_formed_cleanup_loop now l st :
  well_formed st → well_formed (foldl (cleanup_entry now) st l).
Proof.
  revert st. induction l as [|entry l IH]; intros st Hwf; simpl; [done|].
  apply IH. unfold cleanup_entry. case_decide; [by apply well_formed_removeConnection|done].
Qed.

Lemma closeAll_loop_frame (l : list (string * Meta)) st :
  reported (foldl (λ st entry, client_end (client entry.2) st) st l) = reported st ∧
  owner (foldl (λ st entry, client_end (client entry.2) st) st l) = owner st ∧
  clients (foldl (λ st entry, client_end (client entry.2) st) st l) = clients st.
Proof.
  revert st. induction l as [|entry l IH]; intros st; simpl; [done|].
  destruct (IH (client_end (client entry.2) st)) as (-> & -> & ->). done.
Qed.

Lemma well_formed_closeAll st : well_formed st → well_formed (closeAll st).
Proof.
  intros (Hent & Hrep & Hown). unfold closeAll.
  destruct (closeAll_loop_frame (map_to_list (connections st)) st) as (Hr & Ho & Hc).
  unfold well_formed. simpl. rewrite Hr, Ho, Hc. split; [|done].
  intros k e E. by rewrite lookup_empty in E.
Qed.

(** A terminal event of client [c]: once the entry of its node is gone, no
    entry refers to [c]. *)
Lemma well_formed_terminal c node st st' :
  well_formed st → owner st !! c = Some node →
  (∀ k e, connections st' !! k = Some e → k ≠ nodeId_of node ∧ connections st !! k = Some e) →
  reported st' = {[c]} ∪ reported st → owner st' = owner st → clients st' = clients st →
  well_formed st'.
Proof.
  intros (Hent & Hrep & Hown) Hc Hsub Hr Ho Hcl. unfold well_formed. rewrite Hr, Ho, Hcl.
  split; [|split; [|done]].
  - intros k e E. destruct (Hsub k e E) as [Hne E'].
    destruct (Hent k e E') as (Hnr & node' & Hown' & Hid). split; [|eauto].
    intros [Heq%elem_of_singleton| ]%elem_of_union; [|done].
    rewrite Heq in Hown'. congruence.
  - intros c' [->%elem_of_singleton|?]%elem_of_union; eauto.
Qed.

Lemma well_formed_on_error c node st :
  well_formed st → owner st !! c = Some node → well_formed (on_error c node st).
Proof.
  intros Hwf Hc. eapply well_formed_terminal; [done..| |done|done|done].
  simpl. intros k e [? ?]%lookup_delete_Some. done.
Qed.

Lemma well_formed_on_close c node st :
  well_formed st → owner st !! c = Some node → well_formed (on_close c node st).
Proof.
  intros Hwf Hc. unfold on_close.
  destruct (removeConnection_frame (nodeId_of node) (set_reported (λ r, {[c]} ∪ r) st))
    as (Hr & Ho & Hcl).
  eapply well_formed_terminal; [done..| |by rewrite Hr|by rewrite Ho|by rewrite Hcl].
  intros k e E. destruct (decide (k = nodeId_of node)) as [->|Hne].
  - by rewrite removeConnection_lookup in E.
  - by rewrite removeConnection_lookup_ne in E.
Qed.

Lemma well_formed_on_end c node st :
  well_formed st → owner st !! c = Some node → well_formed (on_end c node st).
Proof. apply well_formed_on_close. Qed.

Lemma well_formed_on_ready c node now st :
  well_formed st → owner st !! c = Some node → c ∉ reported st →
  well_formed (on_ready c node now st).
Proof.
  intros (Hent & Hrep & Hown) Hc Hnr. split; [|done]. simpl.
  intros k e [[<- <-]|[Hne E]]%lookup_insert_Some; simpl; eauto.
Qed.

Lemma well_formed_connecting node auth st :
  well_formed st →
  well_formed (connecting node auth st) ∧
  owner (connecting node auth st) !! clients st = Some node ∧
  clients st ∉ reported (connecting node auth st).
Proof.
  intros (Hent & Hrep & Hown). split; [|split]; simpl.
  - split; [|split]; simpl.
    + intros k e E. destruct (Hent k e E) as (Hnr & node' & Hown' & Hid).
      split; [done|]. exists node'. split; [|done].
      rewrite lookup_insert_ne; [done|]. apply Hown in Hown'. lia.
    + intros c Hc. apply Hrep in Hc. lia.
    + intros c node' [[<- <-]|[Hne E]]%lookup_insert_Some; [lia|]. apply Hown in E. lia.
  - apply lookup_insert_eq.
  - intros Hc. apply Hrep in Hc. lia.
Qed.

Lemma well_formed_new_client st : well_formed st → well_formed (new_client st).2.
Proof.
  intros (Hent & Hrep & Hown). split; [done|]. simpl.
  split; [intros c Hc; apply Hrep in Hc|intros c node E; apply Hown in E]; lia.
Qed.

Lemma well_formed_createConnection_fuel fuel node retryCount st r st' :
  well_formed st →
  createConnection_fuel decrypt net fuel node retryCount st = Some (r, st') →
  well_formed st'.
Proof.
  revert retryCount st. induction fuel as [|fuel IH]; intros retryCount st Hwf; [done|].
  rewrite createConnection_fuel_unfold.
  destruct (authentication decrypt node) as [auth|].
  2:{ intros [= <- <-]. by apply well_formed_new_client. }
  destruct (well_formed_connecting node auth st Hwf) as (Hwf1 & Hown & Hnr).
  destruct (net (clients st)) as [now|msg|].
  - intros [= <- <-]. apply well_formed_on_ready; [by apply well_formed_set_writable|done..].
  - case_decide.
    + apply IH. by apply well_formed_sleep, well_formed_on_error.
    + intros [= <- <-]. by apply well_formed_on_error.
  - intros [= <- <-]. by apply well_formed_client_end.
Qed.

Lemma well_formed_getConnection node now st r st' :
  well_formed st →
  getConnection decrypt net node now st = Some (r, st') →
  well_formed st'.
Proof.
  intros Hwf. unfold getConnection.
  destruct (connections st !! nodeId_of node) as [existing|] eqn:E.
  - case_decide.
    + intros [= <- <-]. destruct Hwf as (Hent & Hrep & Hown). split; [|done]. simpl.
      intros k e [[<- <-]|[Hne E']]%lookup_insert_Some; simpl; eauto.
    + apply well_formed_createConnection_fuel. by apply well_formed_removeConnection.
  - by apply well_formed_createConnection_fuel.
Qed.

Lemma well_formed_step st st' : well_formed st → step decrypt net st st' → well_formed st'.
Proof.
  intros Hwf Hstep. destruct Hstep as
    [node now st r st' H|node rc st r st' H|node command timeout now reply st r st' H
    |node now reply st r st' H|node now reply st r st' H
    |nodeId st|now st|st|c node now st Hown Hnr|c node st Hown|c node st Hown|c node st Hown|c st].
  - by eapply well_formed_getConnection.
  - by eapply well_formed_createConnection_fuel.
  - unfold exec in H.
    destruct (getConnection decrypt net node now st) as [[[c|e] st1]|] eqn:G; [| |done].
    + apply (well_formed_getConnection _ _ _ _ _ Hwf) in G.
      destruct reply as [msg|chunks [[elapsed code]|]]; [| |].
      * injection H as <- <-. by apply well_formed_removeConnection.
      * case_decide; by injection H as <- <-.
      * by injection H as <- <-.
    + injection H as <- <-. by eapply well_formed_getConnection.
  - unfold writeFile in H.
    destruct (getConnection decrypt net node now st) as [[[c|e] st1]|] eqn:G; [| |done].
    + apply (well_formed_getConnection _ _ _ _ _ Hwf) in G.
      destruct reply; injection H as <- <-; [by apply well_formed_removeConnection|done..].
    + injection H as <- <-. by eapply well_formed_getConnection.
  - unfold readFile in H.
    destruct (getConnection decrypt net node now st) as [[[c|e] st1]|] eqn:G; [| |done].
    + apply (well_formed_getConnection _ _ _ _ _ Hwf) in G.
      destruct reply; injection H as <- <-; [by apply well_formed_removeConnection|done..].
    + injection H as <- <-. by eapply well_formed_getConnection.
  - by apply well_formed_removeConnection.
  - by apply well_formed_cleanup_loop.
  - by apply well_formed_closeAll.
  - by apply well_formed_on_ready.
  - by apply well_formed_on_error.
  - by apply well_formed_on_close.
  - by apply well_formed_on_end.
  - by apply well_formed_set_writable.
Qed.

Lemma well_formed_reachable cfg st :
  rtc (step decrypt net) (empty_pool cfg) st → well_formed st.
Proof.
  intros Hrun.
  eapply (rtc_ind_r (λ st, well_formed st)); [apply well_formed_empty| |exact Hrun].
  intros y z _ Hstep IH. by eapply well_formed_step.
Qed.

(** ** [getConnection] *)

(** A call that resolves leaves the node's entry in the registry, holding
    the client it resolved with, and that client's socket is writable. *)
Lemma createConnection_fuel_resolved fuel node retryCount st c st' :
  createConnection_fuel decrypt net fuel node retryCount st = Some (Resolved c, st') →
  ∃ e, connections st' !! nodeId_of node = Some e ∧ client e = c ∧ c ∈ writable st'.
Proof.
  revert retryCount st. induction fuel as [|fuel IH]; intros retryCount st; [done|].
  rewrite createConnection_fuel_unfold.
  destruct (authentication decrypt node) as [auth|]; [|done].
  destruct (net (clients st)) as [now|msg|]; [| |done].
  - intros [= <- <-]. eexists. split; [apply lookup_insert_eq|]. simpl. split; [done|set_solver].
  - case_decide; [apply IH|done].
Qed.

Lemma getConnection_resolved node now st c st' :
  getConnection decrypt net node now st = Some (Resolved c, st') →
  ∃ e, connections st' !! nodeId_of node = Some e ∧ client e = c ∧ c ∈ writable st'.
Proof.
  unfold getConnection.
  destruct (connections st !! nodeId_of node) as [existing|] eqn:E;
    [|apply createConnection_fuel_resolved].
  case_decide; [|apply createConnection_fuel_resolved].
  intros [= <- <-]. eexists. split; [apply lookup_insert_eq|done].
Qed.

Lemma getConnection_live node now st existing :
  connections st !! nodeId_of node = Some existing →
  client existing ∈ writable st →
  ∃ st',
    getConnection decrypt net node now st = Some (Resolved (client existing), st') ∧
    (∃ e, connections st' = <[nodeId_of node := e]> (connections st) ∧
          client e = client existing ∧ createdAt e = createdAt existing ∧
          lastUsed e = now ∧ useCount e = useCount existing + 1) ∧
    connects st' = connects st ∧ clients st' = clients st ∧
    sleeps st' = sleeps st ∧ ended st' = ended st ∧ writable st' = writable st.
Proof.
  intros E Hw. unfold getConnection. rewrite E, decide_True by done.
  eexists. split; [done|]. split; [|done]. eexists. split; [done|]. done.
Qed.

Lemma getConnection_dead node now st existing :
  connections st !! nodeId_of node = Some existing →
  client existing ∉ writable st →
  getConnection decrypt net node now st
    = createConnection decrypt net node 0 (removeConnection (nodeId_of node) st) ∧
  connections (removeConnection (nodeId_of node) st) !! nodeId_of node = None ∧
  client existing ∈ ended (removeConnection (nodeId_of node) st).
Proof.
  intros E Hw. unfold getConnection. rewrite E, decide_False by done.
  split; [done|]. split; [apply removeConnection_lookup|].
  by apply removeConnection_ends.
Qed.

(** A first attempt that becomes ready is the only attempt of the call. *)
Lemma createConnection_first_ready node auth now st :
  authentication decrypt node = Some auth →
  net (clients st) = EvReady now →
  createConnection decrypt net node 0 st
    = Some (Resolved (clients st),
            on_ready (clients st) node now (sock_open (clients st) (connecting node auth st))).
Proof.
  intros Hauth Hnet. unfold createConnection, retry_budget.
  by rewrite createConnection_fuel_unfold, Hauth, Hnet.
Qed.

(** Two acquires around a sweep: while the session is within the idle
    window, the second call gets the client of the first and connects
    nothing. *)
Lemma getConnection_twice node now1 sweep now2 st c st1 :
  well_formed st →
  getConnection decrypt net node now1 st = Some (Resolved c, st1) →
  (∀ e, connections st1 !! nodeId_of node = Some e →
        sweep - lastUsed e ≤ maxIdleTime (config st1)) →
  ∃ st2,
    getConnection decrypt net node now2 (cleanup sweep st1) = Some (Resolved c, st2) ∧
    connects st2 = connects st1.
Proof.
  intros Hwf Hget Hfresh.
  pose proof (well_formed_getConnection _ _ _ _ _ Hwf Hget) as (Hent & _ & _).
  destruct (getConnection_resolved _ _ _ _ _ Hget) as (e & E & Hc & Hw).
  assert (connections (cleanup sweep st1) !! nodeId_of node = Some e) as E'.
  { apply cleanup_loop_keeps; [apply agrees_map_to_list|done|by apply Hfresh]. }
  assert (client e ∈ writable (cleanup sweep st1)) as Hw'.
  { apply cleanup_loop_keeps_writable; [apply agrees_map_to_list| |by rewrite Hc].
    intros k v Hin%elem_of_map_to_list Hidle Heq.
    destruct (Hent k v Hin) as (_ & nodev & Hov & Hkv).
    destruct (Hent _ e E) as (_ & nodee & Hoe & Hke).
    rewrite Heq, Hoe in Hov. injection Hov as ->.
    rewrite Hke in Hkv. subst k. assert (v = e) by congruence. subst v.
    specialize (Hfresh e E). lia. }
  destruct (getConnection_live node now2 _ e E' Hw') as (st2 & Hrun & _ & Hcon & _).
  exists st2. rewrite <- Hc. split; [done|]. rewrite Hcon. apply cleanup_frame_connects.
Qed.

(** ** The claims about the pool *)

(** C3.  When the registry holds an entry for the node and its socket is
    writable, [getConnection] returns the entry's client, sets the entry's
    last-used time to now and adds one to its use count, and connects
    nothing.  When the entry's socket is not writable, the entry is removed
    and its client ended before [createConnection] runs.  Hence on a node
    without an entry whose first connect attempt becomes ready, two calls
    with a sweep in between that finds the session within the idle window
    make exactly one connect attempt and return the same client. *)
Theorem getConnection_reuses_live_session :
  (∀ node now st existing,
     connections st !! nodeId_of node = Some existing →
     client existing ∈ writable st →
     ∃ st',
       getConnection decrypt net node now st = Some (Resolved (client existing), st') ∧
       (∃ e, connections st' = <[nodeId_of node := e]> (connections st) ∧
             client e = client existing ∧ createdAt e = createdAt existing ∧
             lastUsed e = now ∧ useCount e = useCount existing + 1) ∧
       connects st' = connects st ∧ clients st' = clients st ∧
       sleeps st' = sleeps st ∧ ended st' = ended st ∧ writable st' = writable st) ∧
  (∀ node now st existing,
     connections st !! nodeId_of node = Some existing →
     client existing ∉ writable st →
     getConnection decrypt net node now st
       = createConnection decrypt net node 0 (removeConnection (nodeId_of node) st) ∧
     connections (removeConnection (nodeId_of node) st) !! nodeId_of node = None ∧
     client existing ∈ ended (removeConnection (nodeId_of node) st)) ∧
  (∀ node auth t now1 sweep now2 st,
     well_formed st →
     connections st !! nodeId_of node = None →
     authentication decrypt node = Some auth →
     net (clients st) = EvReady t →
     sweep - t ≤ maxIdleTime (config st) →
     ∃ c st1 st2,
       getConnection decrypt net node now1 st = Some (Resolved c, st1) ∧
       getConnection decrypt net node now2 (cleanup sweep st1) = Some (Resolved c, st2) ∧
       length (connects st2) = S (length (connects st))).
Proof.
  split; [|split].
  - intros. by apply getConnection_live.
  - intros. by apply getConnection_dead.
  - intros node auth t now1 sweep now2 st Hwf Habsent Hauth Hnet Hwin.
    assert (getConnection decrypt net node now1 st
            = Some (Resolved (clients st),
                    on_ready (clients st) node t
                      (sock_open (clients st) (connecting node auth st)))) as Hfirst.
    { unfold getConnection. rewrite Habsent. by apply createConnection_first_ready. }
    destruct (getConnection_twice node now1 sweep now2 st _ _ Hwf Hfirst) as (st2 & Hsecond & Hcon).
    { simpl. intros e. rewrite lookup_insert_eq. intros [= <-]. done. }
    eexists _, _, st2. split; [done|]. split; [done|].
    rewrite Hcon. simpl. rewrite length_app. simpl. lia.
Qed.

(** C4 (as amended).  For a node with a key or password whose connect
    attempts each end in an ['error'] event, [createConnection] makes
    exactly [maxRetries] further attempts after the first, waits
    [500 * 2^k] before retry number [k] (counted from 0, so the delays
    strictly increase), and only then rejects, with the error of the last
    attempt. *)
Theorem createConnection_retries_with_backoff node auth st :
  authentication decrypt node = Some auth →
  0 ≤ maxRetries (config st) →
  (∀ c, (clients st ≤ c ≤ clients st + Z.to_nat (maxRetries (config st)))%nat →
        ∃ msg, net c = EvError msg) →
  ∃ msg st',
    createConnection decrypt net node 0 st = Some (Rejected (TransportError msg), st') ∧
    net (clients st + Z.to_nat (maxRetries (config st)))%nat = EvError msg ∧
    length (connects st') = (length (connects st) + 1 + Z.to_nat (maxRetries (config st)))%nat ∧
    sleeps st' = sleeps st ++ backoff 0 (Z.to_nat (maxRetries (config st))) ∧
    (∀ k : nat, (k < Z.to_nat (maxRetries (config st)))%nat →
                backoff 0 (Z.to_nat (maxRetries (config st))) !! k = Some (500 * 2 ^ Z.of_nat k)) ∧
    StronglySorted Z.lt (backoff 0 (Z.to_nat (maxRetries (config st)))).
Proof.
  intros Hauth Hmax Hnet.
  destruct (createConnection_fuel_all_errors
              (retry_budget (config st) 0) node auth 0 st Hauth)
    as (msg & st' & Hrun & Hlast & Hlen & Hsl & _).
  { lia. }
  { unfold retry_budget. lia. }
  { intros c Hc. apply Hnet. rewrite Z.sub_0_r in Hc. lia. }
  rewrite Z.sub_0_r in *.
  exists msg, st'. split; [done|]. split; [done|]. split; [lia|]. split; [done|].
  split.
  - intros k Hk. unfold backoff. rewrite list_lookup_fmap, lookup_seq_lt by done.
    simpl. by rewrite Z.mul_comm.
  - by apply backoff_sorted.
Qed.


(** C6.  After one run of [cleanup] at time [now], an entry idle for more
    than [maxIdleTime] is gone from the registry, its client ended and its
    socket no longer writable; an entry idle for [maxIdleTime] or less is
    still there, unchanged. *)
Theorem cleanup_evicts_exactly_idle now st (k : string) e :
  connections st !! k = Some e →
  (now - lastUsed e > maxIdleTime (config st) →
     connections (cleanup now st) !! k = None ∧
     client e ∈ ended (cleanup now st) ∧
     client e ∉ writable (cleanup now st)) ∧
  (now - lastUsed e ≤ maxIdleTime (config st) →
     connections (cleanup now st) !! k = Some e).
Proof.
  intros E. split; intros Hidle.
  - apply cleanup_loop_evicts; [apply agrees_map_to_list| |done|done].
    by apply elem_of_map_to_list.
  - by apply cleanup_loop_keeps; [apply agrees_map_to_list|..].
Qed.

(** C2 (as amended).  Once the session is acquired, [exec] is bounded by
    the per-call timeout: a command whose channel has not closed before the
    timer is due rejects with the timeout error, and the pool is left as
    the acquire left it, so the session of the node stays in the registry,
    writable.  An error handed to the [client.exec] callback rejects with
    that error, and removes and ends the session.  A command that closes
    in time resolves with its exit code and both buffers. *)
Theorem exec_timeout_keeps_session node command timeout now st c st1 :
  getConnection decrypt net node now st = Some (Resolved c, st1) →
  (∀ chunks closes,
     match closes with
     | Some (elapsed, _) => JS.or_num timeout 30000 ≤ elapsed
     | None => True
     end →
     exec decrypt net node command timeout now (Ssh2.ExecStarted chunks closes) st
       = Some (Rejected (ExecTimeout (JS.or_num timeout 30000) (substring 0 50 command)), st1) ∧
     hasConnection (nodeId_of node) st1 = true ∧
     ∃ e, connections st1 !! nodeId_of node = Some e ∧ client e = c) ∧
  (∀ msg,
     exec decrypt net node command timeout now (Ssh2.ExecRefused msg) st
       = Some (Rejected (TransportError msg), removeConnection (nodeId_of node) st1) ∧
     connections (removeConnection (nodeId_of node) st1) !! nodeId_of node = None ∧
     c ∈ ended (removeConnection (nodeId_of node) st1)) ∧
  (∀ chunks elapsed code,
     elapsed < JS.or_num timeout 30000 →
     exec decrypt net node command timeout now
          (Ssh2.ExecStarted chunks (Some (elapsed, code))) st
       = Some (Resolved (Ssh2.mkExecResult code (Ssh2.collect_stdout chunks)
                                           (Ssh2.collect_stderr chunks)), st1)).
Proof.
  intros Hget. destruct (getConnection_resolved _ _ _ _ _ Hget) as (e & E & Hc & Hw).
  assert (hasConnection (nodeId_of node) st1 = true) as Hpooled.
  { unfold hasConnection. rewrite E, Hc. by apply bool_decide_eq_true. }
  unfold exec. rewrite Hget. split; [|split].
  - intros chunks [[elapsed code]|] Hlate.
    + rewrite decide_False by lia. eauto.
    + eauto.
  - intros msg. split; [done|]. split; [apply removeConnection_lookup|].
    rewrite <- Hc. by apply removeConnection_ends.
  - intros chunks elapsed code Hfast. by rewrite decide_True.
Qed.

End PoolFacts.

(** ** The claims at sample inputs *)

Section PoolSamples.
Import SSHPool.

(** C3 at the singleton's first two acquires for [example_node], with a
    sweep at 31000 in between. *)
Lemma getConnection_reuse_witness :
  ∃ c st1 st2,
    getConnection (λ s, s) net_ready example_node 1000 (empty_pool default_config)
      = Some (Resolved c, st1) ∧
    getConnection (λ s, s) net_ready example_node 40000 (cleanup 31000 st1)
      = Some (Resolved c, st2) ∧
    length (connects st2) = 1%nat.
Proof.
  apply (proj2 (proj2 (getConnection_reuses_live_session (λ s, s) net_ready))
           example_node (AuthPassword "U2FsdGVkX18x") 1000 1000 31000 40000
           (empty_pool default_config)).
  - apply well_formed_empty.
  - reflexivity.
  - reflexivity.
  - reflexivity.
  - vm_compute. discriminate.
Defined.

(** C4 at a host that refuses every connection: three attempts, delays 500
    and 1000. *)
Lemma createConnection_retries_witness :
  ∃ st',
    createConnection (λ s, s) net_refused example_node 0 (empty_pool default_config)
      = Some (Rejected (TransportError "ECONNREFUSED"), st') ∧
    length (connects st') = 3%nat ∧
    sleeps st' = [500; 1000].
Proof.
  destruct (createConnection_retries_with_backoff (λ s, s) net_refused example_node
              (AuthPassword "U2FsdGVkX18x") (empty_pool default_config))
    as (msg & st' & Hrun & Hlast & Hlen & Hsl & _).
  - reflexivity.
  - vm_compute. discriminate.
  - intros c _. exists "ECONNREFUSED". reflexivity.
  - injection Hlast as <-. exists st'. split; [exact Hrun|]. split; [exact Hlen|exact Hsl].
Defined.

(** C4 as stated fails: the error can be surfaced before any retry.  When
    the connect timer is due before any event, the call is rejected at
    that moment, after one attempt and no delay, although [maxRetries] is
    2; the handler that stays attached to the timed-out client makes its
    retry only afterwards, when the promise is settled.  And a node
    without key or password is rejected before any attempt. *)
Lemma createConnection_rejects_before_retrying :
  maxRetries default_config = 2 ∧
  (∃ st' st'',
     createConnection (λ s, s) net_silent example_node 0 (empty_pool default_config)
       = Some (Rejected (ConnectionTimeout 15000), st') ∧
     length (connects st') = 1%nat ∧
     sleeps st' = [] ∧
     ended st' = [0%nat] ∧
     SSHPoolBackground.late_error (λ s, s) net_silent 0 example_node 0 st' = Some st'' ∧
     length (connects st'') = 2%nat ∧
     sleeps st'' = [500]) ∧
  (∃ st',
     createConnection (λ s, s) net_refused bare_node 0 (empty_pool default_config)
       = Some (Rejected NoKeyOrPassword, st') ∧
     connects st' = [] ∧
     sleeps st' = []).
Proof.
  split; [reflexivity|]. split; [eexists _, _|eexists]; repeat split; reflexivity.
Qed.


(** C6 at a sweep at time 130000 over [two_sessions]: the session of [a]
    has been idle for 130000 > 120000, that of [b] for 30000. *)
Lemma cleanup_witness :
  (connections (cleanup 130000 two_sessions) !! "a" = None ∧
   0%nat ∈ ended (cleanup 130000 two_sessions) ∧
   0%nat ∉ writable (cleanup 130000 two_sessions)) ∧
  connections (cleanup 130000 two_sessions) !! "b"
    = Some (mkMeta 1 "b" "node-b" "198.51.100.2" 0 100000 4).
Proof.
  split.
  - apply (cleanup_evicts_exactly_idle 130000 two_sessions "a"
             (mkMeta 0 "a" "node-a" "198.51.100.1" 0 0 1)); [reflexivity|].
    vm_compute. reflexivity.
  - apply (cleanup_evicts_exactly_idle 130000 two_sessions "b"
             (mkMeta 1 "b" "node-b" "198.51.100.2" 0 100000 4)); [reflexivity|].
    vm_compute. discriminate.
Defined.

(** C2 at a command that never closes, on a fresh session. *)
Lemma exec_timeout_witness :
  exec (λ s, s) net_ready example_node "sleep 600" None 1000 (Ssh2.ExecStarted [] None)
       (empty_pool default_config)
    = Some (Rejected (ExecTimeout 30000 "sleep 600"), one_session) ∧
  hasConnection (nodeId_of example_node) one_session = true.
Proof.
  destruct (exec_timeout_keeps_session (λ s, s) net_ready example_node "sleep 600" None 1000
              (empty_pool default_config) 0%nat one_session)
    as [Htimeout _].
  - reflexivity.
  - destruct (Htimeout [] None I) as (Hrun & Hpooled & _). split; [exact Hrun|exact Hpooled].
Defined.

(** C2 as stated fails: a command that never closes on a pooled session
    rejects with the timeout error, and afterwards the session is still in
    the registry, writable, and [end()] was called on no client. *)
Lemma exec_timeout_does_not_evict :
  ∃ st',
    exec (λ s, s) net_ready example_node "tail -f /var/log/syslog" (Some 5000) 2000
         (Ssh2.ExecStarted [Ssh2.Stdout "boot"] None) one_session
      = Some (Rejected (ExecTimeout 5000 "tail -f /var/log/syslog"), st') ∧
    hasConnection (nodeId_of example_node) st' = true ∧
    ended st' = [].
Proof. eexists. repeat split; reflexivity. Qed.

End PoolSamples.

(** * Properties of the transport session *)

Section TransportFacts.
Import NodeSSH.
Set Default Proof Using "Type".

Context {R : Type}.
Variable shell : Command → R → Ssh2.ExecReply * R.

Lemma collect_stdout_data chunks :
  Ssh2.collect_stdout chunks = foldr String.append "" (Ssh2.stdout_data chunks).
Proof. induction chunks as [|[d|d] chunks IH]; simpl; congruence. Qed.

Lemma collect_stderr_data chunks :
  Ssh2.collect_stderr chunks = foldr String.append "" (Ssh2.stderr_data chunks).
Proof. induction chunks as [|[d|d] chunks IH]; simpl; congruence. Qed.

#[global] Instance bare_link_contract : Ssh2_contract bare_link (λ up, up).
Proof. split; intros command [] ?; by simpl. Qed.

(** C9.  With an ssh2 client that keeps its contract, [exec] rejects with
    a not-connected error exactly when the session has no connected
    client: with the error of the class exactly when it holds no client at
    all, as before [connect] and after [disconnect], and with the error
    of the library when the client it holds has no connection.  It rejects
    with another error of the library exactly when a connected client
    refuses to start the command; and when the command starts and its
    channel closes, it resolves, whatever the exit code, with that code
    and with the data of the stream and of its [stderr], each in its own
    buffer; it resolves in no other case. *)
Theorem exec_rejects_iff (linked : R → bool) `{!Ssh2_contract shell linked}
    (command : Command) (s : Session R) :
  ((∃ e, (exec shell command s).1 = Thrown e ∧ not_connected_error e)
     ↔ ¬ has_connected_client linked s) ∧
  ((exec shell command s).1 = Thrown NotConnected ↔ client s = false) ∧
  ((∃ msg, msg ≠ ssh2_not_connected ∧ (exec shell command s).1 = Thrown (Ssh2Error msg))
     ↔ has_connected_client linked s ∧
       ∃ msg, (shell command (remote s)).1 = Ssh2.ExecRefused msg) ∧
  (∀ msg, (exec shell command s).1 = Thrown (Ssh2Error msg) ↔
          client s = true ∧ (shell command (remote s)).1 = Ssh2.ExecRefused msg) ∧
  (∀ chunks elapsed code,
     client s = true →
     (shell command (remote s)).1 = Ssh2.ExecStarted chunks (Some (elapsed, code)) →
     (exec shell command s).1
       = Returned (Ssh2.mkExecResult code
                     (foldr String.append "" (Ssh2.stdout_data chunks))
                     (foldr String.append "" (Ssh2.stderr_data chunks)))) ∧
  (∀ a, (exec shell command s).1 = Returned a →
        has_connected_client linked s ∧
        ∃ chunks elapsed,
          (shell command (remote s)).1 = Ssh2.ExecStarted chunks (Some (elapsed, Ssh2.code a))) ∧
  (∀ r, (exec shell command (new_session r)).1 = Thrown NotConnected) ∧
  (exec shell command (disconnect s)).1 = Thrown NotConnected.
Proof.
  assert ((exec shell command (disconnect s)).1 = Thrown NotConnected) as Hclosed.
  { unfold exec, disconnect. destruct (client s) eqn:Hc; simpl; [done|]. by rewrite Hc. }
  assert ((exec shell command s).1 = Thrown NotConnected ↔ client s = false) as Hown.
  { unfold exec. destruct (client s); simpl; [|done].
    destruct (shell command (remote s)) as [[msg|chunks [[elapsed code]|]] r]; by simpl. }
  assert (∀ msg, (exec shell command s).1 = Thrown (Ssh2Error msg) ↔
                 client s = true ∧ (shell command (remote s)).1 = Ssh2.ExecRefused msg) as Hlib.
  { intros msg. unfold exec. destruct (client s); simpl.
    - destruct (shell command (remote s)) as [[msg'|chunks [[elapsed code]|]] r]; simpl.
      + split; [intros [= ->]; done|intros [_ [= ->]]; done].
      + split; [done|intros [_ ?]; done].
      + split; [done|intros [_ ?]; done].
    - split; [done|intros [? _]; done]. }
  assert (linked (remote s) = false →
          (shell command (remote s)).1 = Ssh2.ExecRefused ssh2_not_connected) as Hdown
    by apply unlinked_throws.
  assert (∀ msg, linked (remote s) = true →
                 (shell command (remote s)).1 = Ssh2.ExecRefused msg → msg ≠ ssh2_not_connected)
    as Hup by (intros msg; apply linked_reports_other_errors).
  unfold has_connected_client, not_connected_error.
  split; [|split; [exact Hown|split; [|split; [exact Hlib|split; [|split; [|split]]]]]].
  - split.
    + intros (e & Hrun & [->| ->]) [Hc Hl].
      * apply Hown in Hrun. congruence.
      * apply Hlib in Hrun as [_ Hreply]. by apply (Hup _ Hl Hreply).
    + intros Hnot. destruct (client s) eqn:Hc.
      * destruct (linked (remote s)) eqn:Hl; [destruct Hnot; done|].
        exists (Ssh2Error ssh2_not_connected). split; [|by right].
        apply Hlib. split; [done|by apply Hdown].
      * exists NotConnected. split; [by apply Hown|by left].
  - split.
    + intros (msg & Hmsg & Hrun). apply Hlib in Hrun as [Hc Hreply].
      split; [|by exists msg]. split; [done|].
      destruct (linked (remote s)) eqn:Hl; [done|].
      rewrite (Hdown eq_refl) in Hreply. congruence.
    + intros [[Hc Hl] (msg & Hreply)]. exists msg. split; [by apply (Hup _ Hl)|].
      by apply Hlib.
  - intros chunks elapsed code Hc Hreply. unfold exec. rewrite Hc. simpl.
    destruct (shell command (remote s)) as [reply r]. simpl in Hreply. subst reply.
    simpl. by rewrite collect_stdout_data, collect_stderr_data.
  - intros a Hrun. unfold exec in Hrun. destruct (client s) eqn:Hc; simpl in Hrun; [|done].
    destruct (shell command (remote s)) as [[msg|chunks [[elapsed code]|]] r] eqn:Hreply;
      simpl in Hrun; [done| |done].
    injection Hrun as <-. simpl. split; [|eauto]. split; [done|].
    destruct (linked (remote s)) eqn:Hl; [done|].
    by specialize (Hdown eq_refl).
  - done.
  - exact Hclosed.
Qed.

End TransportFacts.

(** * Properties of the remote operations *)

Section HostFacts.
Import NodeSSH Host.
Set Default Proof Using "Type".






(** ** Port hopping *)

Lemma delete_first_absent rule chain : rule ∉ chain → delete_first rule chain = chain.
Proof.
  induction chain as [|r chain IH]; simpl; [done|].
  intros Hnin. apply not_elem_of_cons in Hnin as [Hne Hnin].
  rewrite decide_False by done. by rewrite IH.
Qed.

Lemma delete_first_subseteq rule chain r : r ∈ delete_first rule chain → r ∈ chain.
Proof.
  induction chain as [|r0 chain IH]; simpl; [done|].
  case_decide; [by right|]. intros [->|Hin]%elem_of_cons; [by left|right; by apply IH].
Qed.

Lemma delete_first_once rule chain :
  (occurrences rule chain ≤ 1)%nat → rule ∉ delete_first rule chain.
Proof.
  unfold occurrences. induction chain as [|r chain IH]; simpl; [intros _; apply not_elem_of_nil|].
  case_decide as Heq.
  - subst r. rewrite filter_cons_True by done. simpl. intros Hocc Hin.
    assert (rule ∈ filter (λ r, r = rule) chain) as Hf by (by apply list_elem_of_filter).
    destruct (filter (λ r, r = rule) chain); [by apply elem_of_nil in Hf|simpl in Hocc; lia].
  - rewrite filter_cons_False by done. intros Hocc.
    apply not_elem_of_cons. split; [done|by apply IH].
Qed.

Lemma delete_first_occurrences rule chain r :
  (occurrences r (delete_first rule chain) ≤ occurrences r chain)%nat.
Proof.
  unfold occurrences. induction chain as [|r0 chain IH]; simpl; [done|].
  case_decide.
  - destruct (decide (r0 = r)); [rewrite filter_cons_True by done|rewrite filter_cons_False by done];
      simpl; lia.
  - destruct (decide (r0 = r)); [rewrite !filter_cons_True by done|rewrite !filter_cons_False by done];
      simpl; lia.
Qed.

Lemma delete_first_filter (P : Redirect → Prop) `{!∀ r, Decision (P r)} rule chain :
  ¬ P rule → filter P (delete_first rule chain) = filter P chain.
Proof.
  intros HP. induction chain as [|r chain IH]; simpl; [done|].
  case_decide as Heq.
  - subst r. by rewrite filter_cons_False.
  - destruct (decide (P r)); [rewrite !filter_cons_True by done|rewrite !filter_cons_False by done];
      by rewrite IH.
Qed.

Lemma purge_subseteq forms chain r : r ∈ purge forms chain → r ∈ chain.
Proof.
  unfold purge. revert chain. induction forms as [|f forms IH]; intros chain; simpl; [done|].
  intros Hin. apply IH in Hin. by eapply delete_first_subseteq.
Qed.

Lemma purge_absent forms chain : (∀ f, f ∈ forms → f ∉ chain) → purge forms chain = chain.
Proof.
  unfold purge. revert chain. induction forms as [|f forms IH]; intros chain Hnin; simpl; [done|].
  rewrite delete_first_absent by (apply Hnin; by left).
  apply IH. intros f' Hf'. apply Hnin. by right.
Qed.

Lemma purge_once forms chain :
  (∀ f, f ∈ forms → (occurrences f chain ≤ 1)%nat) →
  ∀ f, f ∈ forms → f ∉ purge forms chain.
Proof.
  unfold purge. revert chain. induction forms as [|f0 forms IH]; intros chain Hocc f Hf; simpl.
  { by apply elem_of_nil in Hf. }
  apply elem_of_cons in Hf as [->|Hf].
  - intros Hin. apply (purge_subseteq forms) in Hin.
    revert Hin. apply delete_first_once, Hocc. by left.
  - apply IH; [|done]. intros f' Hf'.
    etrans; [apply delete_first_occurrences|]. apply Hocc. by right.
Qed.

Lemma purge_filter (P : Redirect → Prop) `{!∀ r, Decision (P r)} forms chain :
  (∀ f, f ∈ forms → ¬ P f) → filter P (purge forms chain) = filter P chain.
Proof.
  unfold purge. revert chain. induction forms as [|f forms IH]; intros chain HP; simpl; [done|].
  rewrite IH by (intros f' Hf'; apply HP; by right).
  apply delete_first_filter, HP. by left.
Qed.

Lemma run_iptables h family op rule quiet :
  accepted rule = true →
  run_line h (Iptables family op rule quiet)
    = set_nat family (match op with
                      | Delete => delete_first rule
                      | Append => λ chain, chain ++ [rule]
                      end) h.
Proof. intros Hacc. unfold run_line. rewrite Hacc. by destruct op. Qed.

Lemma set_nat_nat4 family f h :
  nat4 (set_nat family f h) = match family with IPv4 => f (nat4 h) | IPv6 => nat4 h end.
Proof. by destruct family. Qed.

Lemma set_nat_nat6 family f h :
  nat6 (set_nat family f h) = match family with IPv4 => nat6 h | IPv6 => f (nat6 h) end.
Proof. by destruct family. Qed.

Lemma set_nat_files family f h : files (set_nat family f h) = files h.
Proof. by destruct family. Qed.

Lemma set_nat_history family f h : history (set_nat family f h) = history h.
Proof. by destruct family. Qed.

(** The lines after the appends touch neither chain. *)
Lemma run_tail_chains h startPort endPort mainPort :
  let h' := run_line (run_line (run_line h (UfwAllowUdp startPort endPort)) SaveRules)
                     (EchoPortHopping startPort endPort mainPort) in
  nat4 h' = nat4 h ∧ nat6 h' = nat6 h ∧ history h' = history h.
Proof.
  cbn [run_line].
  destruct (ufw_active h); [destruct (ufw_accepts startPort endPort)|];
    cbn [rule_saver with_state]; by destruct (rule_saver h).
Qed.

(** What the script does to the two chains of a node that accepts the
    range. *)
Lemma port_hopping_script_run first last mainPort h :
  accepted (mkRedirect None (Some first) (Some last) mainPort) = true →
  let h' := foldl run_line h (port_hopping_script (Some first) (Some last) mainPort) in
  nat4 h' = purge (rule_forms first last mainPort) (nat4 h)
              ++ [mkRedirect None (Some first) (Some last) mainPort] ∧
  nat6 h' = purge (rule_forms first last mainPort) (nat6 h)
              ++ [mkRedirect None (Some first) (Some last) mainPort] ∧
  history h' = history h.
Proof.
  intros Hacc.
  assert (∀ iface, accepted (mkRedirect iface (Some first) (Some last) mainPort) = true)
    as Hall by (intros iface; exact Hacc).
  unfold port_hopping_script, legacy_ifaces, rule_forms, purge.
  cbn [flat_map fmap list_fmap app foldl].
  rewrite !run_iptables by apply Hall.
  match goal with
  | |- context [run_line (run_line (run_line ?x (UfwAllowUdp ?a ?b)) SaveRules)
                         (EchoPortHopping ?a ?b ?c)] =>
      destruct (run_tail_chains x a b c) as (-> & -> & ->)
  end.
  rewrite !set_nat_nat4, !set_nat_nat6, !set_nat_history.
  done.
Qed.

Lemma exec_script lines h w :
  exec shell (CmdScript lines) (mkSession true h w)
    = (Returned (Ssh2.mkExecResult (Some 0) ("" +:+ "") ""),
       mkSession true (foldl run_line (record (CmdScript lines) h) lines) w).
Proof. reflexivity. Qed.

Lemma setupPortHopping_run Number node portRange first last h :
  (Number <$> JS.split "-" portRange) !! 0%nat = Some (Some first) →
  (Number <$> JS.split "-" portRange) !! 1%nat = Some (Some last) →
  setupPortHopping shell Number node portRange (connected h)
    = (Returned true,
       connected (foldl run_line
                    (record (CmdScript (port_hopping_script (Some first) (Some last)
                                          (JS.or_num (port node) 443))) h)
                    (port_hopping_script (Some first) (Some last) (JS.or_num (port node) 443)))).
Proof.
  intros Hfirst Hlast. unfold setupPortHopping, try_catch, bind, ret, connected.
  cbv zeta. rewrite Hfirst, Hlast.
  change (mjoin (Some (Some first))) with (Some first).
  change (mjoin (Some (Some last))) with (Some last).
  by rewrite exec_script.
Qed.

(** The chain the script leaves, when each form of the rule occurred at
    most once and no other rule had the range. *)
Lemma purge_then_append first last mainPort chain :
  (∀ f, f ∈ rule_forms first last mainPort → (occurrences f chain ≤ 1)%nat) →
  (∀ r, r ∈ for_range first last chain → r ∈ rule_forms first last mainPort) →
  let agnostic := mkRedirect None (Some first) (Some last) mainPort in
  let chain' := purge (rule_forms first last mainPort) chain ++ [agnostic] in
  for_range first last chain' = [agnostic] ∧
  purge (rule_forms first last mainPort) chain' ++ [agnostic] = chain' ∧
  filter (λ r, r ∉ rule_forms first last mainPort) chain'
    = filter (λ r, r ∉ rule_forms first last mainPort) chain.
Proof.
  intros Hocc Hforms agnostic chain'.
  set (forms := rule_forms first last mainPort) in *.
  assert (agnostic ∈ forms) as Hagn by (by left).
  pose proof (purge_once forms chain Hocc) as Hgone.
  split; [|split].
  - unfold chain', for_range. rewrite filter_app.
    rewrite filter_cons_True, filter_nil by done.
    destruct (filter _ (purge forms chain)) as [|r rest] eqn:Hfilter; [done|].
    assert (r ∈ filter (λ r, dport_first r = Some first ∧ dport_last r = Some last)
                  (purge forms chain)) as [Hr Hin]%list_elem_of_filter
      by (rewrite Hfilter; by left).
    destruct (Hgone r); [|done]. apply Hforms, list_elem_of_filter.
    split; [done|]. by eapply purge_subseteq.
  - f_equal.
    set (legacy := (λ iface, mkRedirect (Some iface) (Some first) (Some last) mainPort)
                     <$> legacy_ifaces).
    change (purge forms chain') with (purge legacy (delete_first agnostic chain')).
    assert (delete_first agnostic chain' = purge forms chain) as ->.
    { unfold chain'. generalize (Hgone agnostic Hagn). generalize (purge forms chain).
      induction l as [|r l IH]; simpl; intros Hnin.
      - by rewrite decide_True.
      - apply not_elem_of_cons in Hnin as [Hne Hnin].
        rewrite decide_False by done. by rewrite IH. }
    apply purge_absent. intros f Hf. apply Hgone. by right.
  - unfold chain'. rewrite filter_app, filter_cons_False, filter_nil, app_nil_r by (by intros []).
    apply purge_filter. by intros f Hf [].
Qed.

(** The script deletes before it appends: it is a block of quiet
    deletions, one for every form of the rule in either family, followed
    by the two appends of the interface-agnostic rule. *)
Lemma port_hopping_script_shape startPort endPort mainPort :
  ∃ deletions,
    port_hopping_script startPort endPort mainPort
      = deletions
        ++ [ Iptables IPv4 Append (mkRedirect None startPort endPort mainPort) false;
             Iptables IPv6 Append (mkRedirect None startPort endPort mainPort) false;
             UfwAllowUdp startPort endPort; SaveRules;
             EchoPortHopping startPort endPort mainPort ] ∧
    Forall (λ line, ∃ family rule, line = Iptables family Delete rule true) deletions ∧
    ∀ family iface,
      iface ∈ None :: (Some <$> legacy_ifaces) →
      Iptables family Delete (mkRedirect iface startPort endPort mainPort) true ∈ deletions.
Proof.
  eexists. split; [unfold port_hopping_script; rewrite app_assoc; reflexivity|].
  split.
  - unfold legacy_ifaces. simpl. repeat (constructor; [eauto|]). constructor.
  - intros family iface Hin. unfold legacy_ifaces in *. simpl in *.
    destruct family; repeat (apply elem_of_cons in Hin as [->|Hin]; [set_solver|]);
      by apply elem_of_nil in Hin.
Qed.

(** X22.  The script of [setupPortHopping] deletes the rule for the new
    range and main port, in its interface-agnostic form and in the form
    bound to each of the six legacy interfaces, before it appends the
    interface-agnostic rule.  Hence on a node where each of these forms
    occurs at most once and no other rule has the range, one call leaves
    exactly one rule for the range in either family, a second call with
    the same range leaves the chains as they are, and the rules that are
    none of these forms are the same before and after. *)
Theorem setupPortHopping_idempotent Number node portRange first last h :
  (Number <$> JS.split "-" portRange) !! 0%nat = Some (Some first) →
  (Number <$> JS.split "-" portRange) !! 1%nat = Some (Some last) →
  accepted (mkRedirect None (Some first) (Some last) (JS.or_num (port node) 443)) = true →
  (∀ f, f ∈ rule_forms first last (JS.or_num (port node) 443) →
        (occurrences f (nat4 h) ≤ 1)%nat ∧ (occurrences f (nat6 h) ≤ 1)%nat) →
  (∀ r, r ∈ for_range first last (nat4 h) ++ for_range first last (nat6 h) →
        r ∈ rule_forms first last (JS.or_num (port node) 443)) →
  let agnostic := mkRedirect None (Some first) (Some last) (JS.or_num (port node) 443) in
  let others := filter (λ r, r ∉ rule_forms first last (JS.or_num (port node) 443)) in
  (∃ deletions,
     port_hopping_script (Some first) (Some last) (JS.or_num (port node) 443)
       = deletions
         ++ [ Iptables IPv4 Append agnostic false; Iptables IPv6 Append agnostic false;
              UfwAllowUdp (Some first) (Some last); SaveRules;
              EchoPortHopping (Some first) (Some last) (JS.or_num (port node) 443) ] ∧
     Forall (λ line, ∃ family rule, line = Iptables family Delete rule true) deletions ∧
     ∀ family f, f ∈ rule_forms first last (JS.or_num (port node) 443) →
                 Iptables family Delete f true ∈ deletions) ∧
  ∃ h1 h2,
    setupPortHopping shell Number node portRange (connected h) = (Returned true, connected h1) ∧
    setupPortHopping shell Number node portRange (connected h1) = (Returned true, connected h2) ∧
    for_range first last (nat4 h1) = [agnostic] ∧
    for_range first last (nat6 h1) = [agnostic] ∧
    nat4 h2 = nat4 h1 ∧ nat6 h2 = nat6 h1 ∧
    others (nat4 h1) = others (nat4 h) ∧ others (nat6 h1) = others (nat6 h).
Proof.
  intros Hfirst Hlast Hacc Hocc Hforms agnostic others.
  set (mainPort := JS.or_num (port node) 443) in *.
  split.
  { destruct (port_hopping_script_shape (Some first) (Some last) mainPort)
      as (deletions & Hshape & Hdel & Hall).
    exists deletions. split; [done|]. split; [done|].
    intros family f Hf. unfold rule_forms in Hf.
    apply elem_of_cons in Hf as [->|[iface [-> Hi]]%list_elem_of_fmap].
    - apply (Hall family None). by left.
    - apply (Hall family (Some iface)). right. by apply list_elem_of_fmap_2. }
  set (script := port_hopping_script (Some first) (Some last) mainPort).
  set (h1 := foldl run_line (record (CmdScript script) h) script).
  set (h2 := foldl run_line (record (CmdScript script) h1) script).
  exists h1, h2.
  split; [by apply setupPortHopping_run|]. split; [by apply setupPortHopping_run|].
  destruct (port_hopping_script_run first last mainPort (record (CmdScript script) h) Hacc)
    as (H4 & H6 & _).
  destruct (port_hopping_script_run first last mainPort (record (CmdScript script) h1) Hacc)
    as (H4' & H6' & _).
  change (nat4 (record (CmdScript script) h)) with (nat4 h) in H4.
  change (nat6 (record (CmdScript script) h)) with (nat6 h) in H6.
  change (nat4 (record (CmdScript script) h1)) with (nat4 h1) in H4'.
  change (nat6 (record (CmdScript script) h1)) with (nat6 h1) in H6'.
  fold script h1 in H4, H6. fold script h2 in H4', H6'.
  destruct (purge_then_append first last mainPort (nat4 h)) as (Ha4 & Hb4 & Hc4).
  { intros f Hf. by apply Hocc. }
  { intros r Hr. apply Hforms, elem_of_app. by left. }
  destruct (purge_then_append first last mainPort (nat6 h)) as (Ha6 & Hb6 & Hc6).
  { intros f Hf. by apply Hocc. }
  { intros r Hr. apply Hforms, elem_of_app. by right. }
  rewrite <- H4 in Ha4, Hb4, Hc4. rewrite <- H6 in Ha6, Hb6, Hc6.
  rewrite <- H4' in Hb4. rewrite <- H6' in Hb6.
  repeat split; assumption.
Qed.

End HostFacts.

Section HostSamples.
Import NodeSSH Host.



(** X22 at a node with a legacy rule for the range: after the call only
    the interface-agnostic rule has the range, and a second call changes
    nothing. *)
Lemma setupPortHopping_witness :
  ∃ h1 h2,
    setupPortHopping shell Number_decimal example_node "20000-50000" (connected legacy_host)
      = (Returned true, connected h1) ∧
    setupPortHopping shell Number_decimal example_node "20000-50000" (connected h1)
      = (Returned true, connected h2) ∧
    for_range 20000 50000 (nat4 h1) = [mkRedirect None (Some 20000) (Some 50000) 443] ∧
    nat4 h2 = nat4 h1.
Proof.
  destruct (setupPortHopping_idempotent Number_decimal example_node "20000-50000"
              20000 50000 legacy_host)
    as (_ & h1 & h2 & Hone & Htwo & Hrange & _ & Hsame & _).
  - reflexivity.
  - reflexivity.
  - reflexivity.
  - intros f Hf. unfold rule_forms, legacy_ifaces in Hf. simpl in Hf.
    repeat (apply elem_of_cons in Hf as [->|Hf]; [split; vm_compute; lia|]).
    by apply elem_of_nil in Hf.
  - intros r Hr. vm_compute in Hr. apply elem_of_cons in Hr as [->|Hr].
    + right. left.
    + by apply elem_of_nil in Hr.
  - exists h1, h2. split; [exact Hone|]. split; [exact Htwo|]. split; [exact Hrange|exact Hsame].
Defined.

(** C7.  The code at the failing input.  The script is announced as a full
    cleanup that clears all old rules, but its deletions name the new
    range: after a call with 20000-50000 and two calls with 20000-40000 on
    a node without rules, the rule of the first call is still in the
    chain, ahead of the new one; two rules redirect port 30000 of the new
    range, and port 45000, outside it, is still redirected. *)
Lemma setupPortHopping_keeps_old_range :
  ∃ h1 h2 h3,
    setupPortHopping shell Number_decimal example_node "20000-50000" (connected fresh_host)
      = (Returned true, connected h1) ∧
    setupPortHopping shell Number_decimal example_node "20000-40000" (connected h1)
      = (Returned true, connected h2) ∧
    setupPortHopping shell Number_decimal example_node "20000-40000" (connected h2)
      = (Returned true, connected h3) ∧
    nat4 h3 = [mkRedirect None (Some 20000) (Some 50000) 443;
               mkRedirect None (Some 20000) (Some 40000) 443] ∧
    nat6 h3 = nat4 h3 ∧
    length (filter (λ r, covers 30000 r = true) (nat4 h3)) = 2%nat ∧
    length (filter (λ r, covers 45000 r = true) (nat4 h3)) = 1%nat.
Proof. eexists _, _, _. repeat split; reflexivity. Qed.

(** C9 at a session whose client has no connection, at one that was never
    connected, and at a connected one. *)
Lemma exec_witness :
  (∃ e, (exec bare_link CmdIsActive (mkSession true false [])).1 = Thrown e ∧
        not_connected_error e) ∧
  (exec bare_link CmdIsActive (new_session true)).1 = Thrown NotConnected ∧
  (exec bare_link CmdIsActive (mkSession true true [])).1
    = Returned (Ssh2.mkExecResult (Some 0) "active" "").
Proof.
  split; [|split].
  - apply (proj1 (exec_rejects_iff bare_link (λ up, up) CmdIsActive (mkSession true false []))).
    intros [_ Hup]. discriminate Hup.
  - apply (proj1 (proj2 (exec_rejects_iff bare_link (λ up, up) CmdIsActive (new_session true)))).
    reflexivity.
  - apply (proj1 (proj2 (proj2 (proj2 (proj2
             (exec_rejects_iff bare_link (λ up, up) CmdIsActive (mkSession true true []))))))
             [Ssh2.Stdout "active"] 0 (Some 0)); reflexivity.
Defined.

End HostSamples.

(** * Doubles that are whole numbers *)

Section RoundingFacts.
Import StatsNotions.
Set Default Proof Using "Type".

Lemma digits2_pos_bounds (m : positive) :
  2 ^ (Z.pos (digits2_pos m) - 1) ≤ Z.pos m < 2 ^ Z.pos (digits2_pos m).
Proof.
  induction m as [m IH|m IH|]; simpl digits2_pos.
  - rewrite Pos2Z.inj_succ.
    replace (Z.succ (Z.pos (digits2_pos m)) - 1) with (Z.succ (Z.pos (digits2_pos m) - 1)) by lia.
    rewrite !Z.pow_succ_r by lia. lia.
  - rewrite Pos2Z.inj_succ.
    replace (Z.succ (Z.pos (digits2_pos m)) - 1) with (Z.succ (Z.pos (digits2_pos m) - 1)) by lia.
    rewrite !Z.pow_succ_r by lia. lia.
  - simpl. lia.
Qed.

Lemma iter_xO_value (m k : positive) : Z.pos (Pos.iter xO m k) = Z.pos m * 2 ^ Z.pos k.
Proof.
  induction k as [|k IH] using Pos.peano_ind.
  - simpl. lia.
  - rewrite Pos.iter_succ, Pos2Z.inj_succ, Z.pow_succ_r by lia.
    rewrite Pos2Z.inj_xO, IH. lia.
Qed.

Lemma iter_xO_digits (m k : positive) :
  Z.pos (digits2_pos (Pos.iter xO m k)) = Z.pos (digits2_pos m) + Z.pos k.
Proof.
  induction k as [|k IH] using Pos.peano_ind.
  - simpl. lia.
  - rewrite Pos.iter_succ. simpl digits2_pos. rewrite Pos2Z.inj_succ, IH. lia.
Qed.

Lemma shr_fexp_full (mz : positive) (ez : Z) (l : location) :
  Z.pos (digits2_pos mz) = 53 → -1074 ≤ ez →
  shr_fexp prec emax (Z.pos mz) ez l = (shr_record_of_loc (Z.pos mz) l, ez).
Proof.
  intros Hd He. unfold shr_fexp, fexp, emin, prec, emax.
  change (Zdigits2 (Z.pos mz)) with (Z.pos (digits2_pos mz)). rewrite Hd.
  replace (Z.max (53 + ez - 53) (3 - 1024 - 53) - ez) with 0 by lia.
  reflexivity.
Qed.

Lemma binary_round_aux_exact (sx : bool) (mz : positive) (ez : Z) :
  Z.pos (digits2_pos mz) = 53 → -1074 ≤ ez ≤ 971 →
  binary_round_aux prec emax sx (Z.pos mz) ez loc_Exact = S754_finite sx mz ez.
Proof.
  intros Hd He. unfold binary_round_aux.
  rewrite shr_fexp_full by lia.
  cbn [shr_record_of_loc shr_m loc_of_shr_record round_nearest_even].
  rewrite shr_fexp_full by lia.
  cbn [shr_record_of_loc shr_m].
  unfold emax, prec.
  replace (ez <=? 1024 - 53) with true by (symmetry; apply Z.leb_le; lia). reflexivity.
Qed.

Lemma binary_round_exact (sx : bool) (n : positive) :
  Z.pos (digits2_pos n) ≤ 53 →
  ∃ m e, binary_round prec emax sx n 0 = S754_finite sx m e ∧
         -52 ≤ e ≤ 0 ∧ Z.pos m = Z.pos n * 2 ^ (- e) ∧
         Z.pos (digits2_pos m) = 53.
Proof.
  intros Hd. unfold binary_round, shl_align, fexp, emin, prec, emax.
  pose proof (Pos2Z.is_pos (digits2_pos n)) as Hpos.
  replace (Z.max (Z.pos (digits2_pos n) + 0 - 53) (3 - 1024 - 53))
    with (Z.pos (digits2_pos n) - 53) by lia.
  destruct (Z.pos (digits2_pos n) - 53 - 0) as [|p|p] eqn:Hshift; [|lia|].
  - fold prec emax. rewrite binary_round_aux_exact by lia.
    exists n, 0. split; [reflexivity|]. split; [lia|]. split; [simpl; lia|unfold prec; lia].
  - fold prec emax. rewrite binary_round_aux_exact.
    + exists (Pos.iter xO n p), (Z.pos (digits2_pos n) - 53).
      split; [reflexivity|]. split; [lia|]. split; [|unfold prec; rewrite iter_xO_digits; lia].
      unfold prec. rewrite iter_xO_value. f_equal. f_equal. lia.
    + unfold prec. rewrite iter_xO_digits. lia.
    + unfold prec. lia.
Qed.

Lemma whole_value_finite (s : bool) (n m : positive) (e : Z) :
  -52 ≤ e ≤ 0 → Z.pos m = Z.pos n * 2 ^ (- e) → Z.pos (digits2_pos m) = 53 →
  whole_value (SF2Prim (S754_finite s m e)) = Some (if s then Z.neg n else Z.pos n).
Proof.
  intros He Hm Hd. unfold whole_value.
  rewrite Prim2SF_SF2Prim.
  - assert (0 < 2 ^ (- e)) as Hpow by (apply Z.pow_pos_nonneg; lia).
    destruct (0 <=? e) eqn:Hle.
    + apply Z.leb_le in Hle. assert (e = 0) as -> by lia. simpl in *.
      f_equal. destruct s; lia.
    + replace (Z.pos m mod 2 ^ (- e) =? 0) with true
        by (symmetry; apply Z.eqb_eq; rewrite Hm; apply Z.mod_mul; lia).
      f_equal. destruct s.
      * change (Z.neg m) with (- Z.pos m). rewrite Hm.
        replace (- (Z.pos n * 2 ^ (- e))) with (- Z.pos n * 2 ^ (- e)) by lia.
        rewrite Z.div_mul by lia. reflexivity.
      * rewrite Hm, Z.div_mul by lia. reflexivity.
  - unfold valid_binary, bounded, canonical_mantissa, fexp, emin, prec, emax. rewrite Hd.
    apply andb_true_intro. split; [apply Z.eqb_eq|apply Z.leb_le]; lia.
Qed.

Lemma digits_of_small (n : positive) : Z.pos n < 2 ^ 53 → Z.pos (digits2_pos n) ≤ 53.
Proof.
  intros Hn. pose proof (digits2_pos_bounds n) as [Hlow _].
  destruct (Z_le_gt_dec (Z.pos (digits2_pos n)) 53) as [|Hgt]; [assumption|].
  exfalso. assert (2 ^ 53 ≤ 2 ^ (Z.pos (digits2_pos n) - 1)) by (apply Z.pow_le_mono_r; lia).
  lia.
Qed.

Lemma whole_value_of_Z (z : Z) : Z.abs z < 2 ^ 53 → whole_value (JS.of_Z z) = Some z.
Proof.
  intros Hz. unfold JS.of_Z. destruct z as [|n|n]; simpl binary_normalize.
  - reflexivity.
  - destruct (binary_round_exact false n) as (m & e & -> & He & Hm & Hd).
    { apply digits_of_small. lia. }
    apply (whole_value_finite false n); assumption.
  - destruct (binary_round_exact true n) as (m & e & -> & He & Hm & Hd).
    { apply digits_of_small. lia. }
    apply (whole_value_finite true n); assumption.
Qed.

(** The mantissa of a double has at most 53 digits. *)
Lemma mantissa_small (x : float) (s : bool) (m : positive) (e : Z) :
  Prim2SF x = S754_finite s m e → Z.pos m < 2 ^ 53.
Proof.
  intros Hx. pose proof (Prim2SF_valid x) as Hvalid. rewrite Hx in Hvalid.
  unfold valid_binary, bounded, canonical_mantissa, fexp, emin, prec, emax in Hvalid.
  apply andb_prop in Hvalid as [Hcanon _]. apply Z.eqb_eq in Hcanon.
  pose proof (digits2_pos_bounds m) as [_ Hup].
  assert (2 ^ Z.pos (digits2_pos m) ≤ 2 ^ 53) by (apply Z.pow_le_mono_r; lia).
  lia.
Qed.

End RoundingFacts.

(** * Properties of the statistics parser *)

Section StatsFacts.
Import NodeSSH.
Set Default Proof Using "Type".

Variable parseFloat : option string → float.

Lemma stats_line_consistent acc line :
  consistent (mem acc.2) ∧ consistent (disk acc.2) →
  consistent (mem (stats_line parseFloat acc line).2) ∧
  consistent (disk (stats_line parseFloat acc line).2).
Proof.
  destruct acc as [section stats]. simpl. intros [Hmem Hdisk]. unfold stats_line.
  repeat (match goal with |- context [if ?b then _ else _] => destruct b end; [done|]).
  destruct section; done.
Qed.

Lemma stats_loop_consistent lines acc :
  consistent (mem acc.2) ∧ consistent (disk acc.2) →
  consistent (mem (foldl (stats_line parseFloat) acc lines).2) ∧
  consistent (disk (foldl (stats_line parseFloat) acc lines).2).
Proof.
  revert acc. induction lines as [|line lines IH]; intros acc Hacc; simpl; [done|].
  by apply IH, stats_line_consistent.
Qed.

(** [JS.round_half_up] is the nearest integer, the upper one at a tie: for
    [x = sm * 2^e] with [e < 0] and [n] the result, [n - 1/2 <= x < n + 1/2]. *)
Lemma round_half_up_nearest (s : bool) (m : positive) (e : Z) :
  e < 0 →
  let sm := if s then Z.neg m else Z.pos m in
  let n := JS.round_half_up s m e in
  (2 * n - 1) * 2 ^ (- e) ≤ 2 * sm < (2 * n + 1) * 2 ^ (- e).
Proof.
  intros He sm n. unfold n, JS.round_half_up. fold sm.
  rewrite (proj2 (Z.leb_gt 0 e)) by lia.
  assert (0 < 2 ^ (- e)) as Hpos by (apply Z.pow_pos_nonneg; lia).
  replace (2 ^ (- e + 1)) with (2 * 2 ^ (- e)) by (rewrite Z.pow_add_r by lia; lia).
  set (d := 2 * 2 ^ (- e)). set (a := 2 * sm + 2 ^ (- e)).
  pose proof (Z.div_mod a d ltac:(unfold d; lia)) as Hdiv.
  pose proof (Z.mod_pos_bound a d ltac:(unfold d; lia)) as Hmod.
  unfold d, a in *. lia.
Qed.

(** [Math.round] rounds to the nearest whole number, the upper one at a
    tie. *)
Lemma Math_round_nearest (x : float) : StatsNotions.nearest_whole x (JS.Math_round x).
Proof.
  unfold StatsNotions.nearest_whole, JS.Math_round.
  destruct (Prim2SF x) as [s0|s0| |s m e] eqn:Hx; try reflexivity.
  cbv zeta. destruct (0 <=? e) eqn:He.
  - eexists. split; [|reflexivity]. unfold StatsNotions.whole_value. by rewrite Hx, He.
  - apply Z.leb_gt in He.
    pose proof (round_half_up_nearest s m e He) as Hnear. cbv zeta in Hnear.
    exists (JS.round_half_up s m e). split; [|exact Hnear].
    destruct ((JS.round_half_up s m e =? 0) && s) eqn:Hzero.
    + apply andb_prop in Hzero as [Hn _]. apply Z.eqb_eq in Hn. rewrite Hn.
      vm_compute. reflexivity.
    + apply whole_value_of_Z.
      pose proof (mantissa_small x s m e Hx) as Hm.
      assert (2 ^ 1 ≤ 2 ^ (- e)) as Hpow by (apply Z.pow_le_mono_r; lia).
      change (2 ^ 1) with 2 in Hpow. change (2 ^ 53) with 9007199254740992 in *.
      set (P := 2 ^ (- e)) in *. set (n := JS.round_half_up s m e) in *.
      assert (- 9007199254740992 < (if s then Z.neg m else Z.pos m) < 9007199254740992)
        as Hsm by (destruct s; lia).
      set (sm := if s then Z.neg m else Z.pos m) in *.
      destruct (Z_lt_le_dec n 9007199254740992) as [Hup|Hup];
        [destruct (Z_lt_le_dec (- 9007199254740992) n) as [Hlow|Hlow]|]; [lia|exfalso; nia|exfalso; nia].
Qed.

(** C8.  For every output of the remote script, [getSystemStats] returns
    the record parsed from it, in which the memory and the disk percentage
    are [used / total * 100] rounded to the nearest whole number when
    [total] is positive, and 0 otherwise, hence 0 whenever [total] is 0;
    the memory line [Mem: 1000 400 600] yields exactly 40, and 1 of 8 and
    2 of 3 yield 13 and 67. *)
Theorem getSystemStats_percent {R : Type} (shell : Command → R → Ssh2.ExecReply * R)
    (s : Session R) chunks elapsed code r :
  client s = true →
  shell CmdStats (remote s) = (Ssh2.ExecStarted chunks (Some (elapsed, code)), r) →
  let stats := parse_stats parseFloat (Ssh2.collect_stdout chunks) in
  getSystemStats shell parseFloat s = (Returned (StatsOk stats), mkSession true r (waited s)) ∧
  StatsNotions.percent_rounded (mem stats) ∧
  StatsNotions.percent_rounded (disk stats) ∧
  (total (mem stats) = 0%float → percent (mem stats) = 0%float) ∧
  (total (disk stats) = 0%float → percent (disk stats) = 0%float) ∧
  percent (mem (parse_stats parseFloat example_stats_output)) = 40%float ∧
  percent (disk (parse_stats parseFloat example_stats_output)) = 20%float ∧
  percent (mem (parse_stats parseFloat uneven_stats_output)) = 13%float ∧
  percent (disk (parse_stats parseFloat uneven_stats_output)) = 67%float.
Proof.
  intros Hclient Hreply stats.
  destruct (stats_loop_consistent (JS.split JS.LF (Ssh2.collect_stdout chunks))
              (SecNone, stats_defaults)) as [Hmem Hdisk]; [by split|].
  fold (parse_stats parseFloat (Ssh2.collect_stdout chunks)) in Hmem, Hdisk.
  fold stats in Hmem, Hdisk. unfold consistent in Hmem, Hdisk.
  split.
  { destruct s as [c r0 w]. simpl in *. subst c.
    unfold getSystemStats, try_catch, bind, exec, ret. simpl. by rewrite Hreply. }
  assert (∀ u, percent u = percent_of (used u) (total u) → StatsNotions.percent_rounded u)
    as Hrounded.
  { intros u Hu. unfold StatsNotions.percent_rounded. rewrite Hu. unfold percent_of.
    destruct (PrimFloat.ltb 0 (total u)); [apply Math_round_nearest|done]. }
  split; [by apply Hrounded|]. split; [by apply Hrounded|].
  split; [intros Hz; by rewrite Hmem, Hz|].
  split; [intros Hz; by rewrite Hdisk, Hz|].
  repeat split; vm_compute; reflexivity.
Qed.

(** Through the whole method: whatever the node prints, [getSystemStats]
    on a connected session returns the parsed record. *)
Lemma getSystemStats_parses {R : Type} (shell : Command → R → Ssh2.ExecReply * R)
    (s : Session R) chunks elapsed code r :
  client s = true →
  shell CmdStats (remote s) = (Ssh2.ExecStarted chunks (Some (elapsed, code)), r) →
  (getSystemStats shell parseFloat s).1
    = Returned (StatsOk (parse_stats parseFloat (Ssh2.collect_stdout chunks))).
Proof.
  intros Hc Hsh. unfold getSystemStats, try_catch, bind, exec, ret.
  by rewrite Hc, Hsh.
Qed.

End StatsFacts.

(** * Properties of the crypto service *)

Section CryptoFacts.
Import CryptoService.
Set Default Proof Using "Type".

Lemma drop_chars_append (s t : string) : drop_chars (String.length s) (s +:+ t) = t.
Proof. induction s as [|c s IH]; [by destruct t|]. exact IH. Qed.

#[global] Instance toy_library_contract : CryptoJS_contract toy_library.
Proof.
  split.
  - done.
  - by intros [salt rest].
  - intros salt message passphrase. apply drop_chars_append.
Qed.

(** C10.  With a library that keeps its contract, and the one key the
    service was built with, [decrypt] gives back the string [encrypt] was
    given, whatever salt the encryption drew.  Hence the password that
    [createConnection] hands to ssh2, for a node that stores an encrypted
    password and no key, is the password that was encrypted. *)
Theorem decrypt_encrypt `{!CryptoJS_contract L} (this : Service) (salt : Salt) (s : string) :
  decrypt this (encrypt this salt s) = Some s ∧
  ∀ (decrypt_text : string → string) node creds,
    (∀ c p, decrypt this c = Some p → decrypt_text c = p) →
    SSHPool.ssh node = Some creds →
    JS.truthy (SSHPool.ssh_privateKey creds) = None →
    SSHPool.ssh_password creds = Some (encrypt this salt s) →
    encrypt this salt s ≠ "" →
    SSHPool.authentication decrypt_text node = Some (SSHPool.AuthPassword s).
Proof.
  assert (decrypt this (encrypt this salt s) = Some s) as Hround.
  { unfold decrypt, encrypt, AES_decrypt, AES_encrypt.
    by rewrite format_roundtrip, cipher_roundtrip, utf8_roundtrip. }
  split; [done|].
  intros decrypt_text node creds Hext Hssh Hkey Hpw Hne.
  unfold SSHPool.authentication. rewrite Hssh. simpl. rewrite Hkey, Hpw. simpl.
  rewrite decide_False by done. by rewrite (Hext _ _ Hround).
Qed.

End CryptoFacts.

Section CryptoSamples.
Import CryptoService.

(** C10 at the toy library. *)
Lemma decrypt_encrypt_witness :
  decrypt (mkService "panel-key") (encrypt (mkService "panel-key") "s"%char "hunter2")
    = Some "hunter2".
Proof.
  exact (proj1 (decrypt_encrypt (L := toy_library) (mkService "panel-key") "s"%char "hunter2")).
Defined.

End CryptoSamples.

(** * Further properties of the connection pool *)

Section PoolLifecycle.
Import SSHPool.
Set Default Proof Using "Type".

Lemma closeAll_loop_connections (l : list (string * Meta)) st :
  connections (foldl (λ st entry, client_end (client entry.2) st) st l) = connections st.
Proof. revert st. induction l as [|x l IH]; intros st; [done|]. simpl. by rewrite IH. Qed.

Lemma closeAll_loop_connects (l : list (string * Meta)) st :
  connects (foldl (λ st entry, client_end (client entry.2) st) st l) = connects st.
Proof. revert st. induction l as [|x l IH]; intros st; [done|]. simpl. by rewrite IH. Qed.

Lemma closeAll_loop_ended (l : list (string * Meta)) st c :
  c ∈ ended (foldl (λ st entry, client_end (client entry.2) st) st l) ↔
  c ∈ ended st ∨ ∃ k e, (k, e) ∈ l ∧ client e = c.
Proof.
  revert st. induction l as [|[k0 e0] l IH]; intros st; simpl.
  - split; [by left|]. intros [H|(k & e & H & _)]; [done|]. by apply elem_of_nil in H.
  - rewrite IH. simpl. rewrite elem_of_app, list_elem_of_singleton. split.
    + intros [[H| ->]|(k & e & H & Hc)].
      * by left.
      * right. exists k0, e0. split; [left|done].
      * right. exists k, e. split; [by right|done].
    + intros [H|(k & e & H & Hc)]; [by left; left|].
      apply elem_of_cons in H as [[= -> ->]|H].
      * left. by right.
      * right. by exists k, e.
Qed.

Lemma closeAll_loop_writable (l : list (string * Meta)) st c :
  c ∈ writable (foldl (λ st entry, client_end (client entry.2) st) st l) ↔
  c ∈ writable st ∧ ∀ k e, (k, e) ∈ l → client e ≠ c.
Proof.
  revert st. induction l as [|[k0 e0] l IH]; intros st; simpl.
  - split; [|by intros [H _]]. intros H. split; [done|]. intros k e Hin. by apply elem_of_nil in Hin.
  - rewrite IH. simpl. rewrite elem_of_difference, elem_of_singleton. split.
    + intros [[Hw Hne] Hl]. split; [done|]. intros k e Hin.
      apply elem_of_cons in Hin as [[= -> ->]|Hin]; [congruence|by eapply Hl].
    + intros [Hw Hl]. split; [split; [done|]|].
      * intros ->. apply (Hl k0 e0); [left|done].
      * intros k e Hin. apply (Hl k e). by right.
Qed.

Lemma cleanup_loop_subseteq now l st (k : string) e :
  connections (foldl (cleanup_entry now) st l) !! k = Some e → connections st !! k = Some e.
Proof.
  revert st. induction l as [|x l IH]; intros st; [done|]. simpl. intros H.
  apply IH in H. unfold cleanup_entry in H. case_decide; [|done].
  by eapply removeConnection_subseteq.
Qed.

Lemma cleanup_loop_noop now l st :
  (∀ k e, (k, e) ∈ l → now - lastUsed e ≤ maxIdleTime (config st)) →
  foldl (cleanup_entry now) st l = st.
Proof.
  induction l as [|[k0 e0] l IH]; intros Hl; [done|]. simpl.
  unfold cleanup_entry at 2. simpl. case_decide as Hidle.
  - specialize (Hl k0 e0 ltac:(left)). lia.
  - apply IH. intros k e Hin. apply (Hl k e). by right.
Qed.

Variable decrypt : string → string.
Variable net : nat → ConnEvent.

Lemma createConnection_fuel_local fuel node retryCount st r st' (k : string) :
  k ≠ nodeId_of node →
  createConnection_fuel decrypt net fuel node retryCount st = Some (r, st') →
  connections st' !! k = connections st !! k.
Proof.
  intros Hk. revert retryCount st. induction fuel as [|fuel IH]; intros rc st; [done|].
  rewrite createConnection_fuel_unfold.
  destruct (authentication decrypt node) as [auth|]; [|by intros [= <- <-]].
  destruct (net (clients st)) as [t|msg|].
  - intros [= <- <-]. simpl. by rewrite lookup_insert_ne.
  - case_decide.
    + intros Hrun. apply IH in Hrun. rewrite Hrun. simpl. by rewrite lookup_delete_ne.
    + intros [= <- <-]. simpl. by rewrite lookup_delete_ne.
  - by intros [= <- <-].
Qed.

Lemma getConnection_local node now st r st' (k : string) :
  k ≠ nodeId_of node →
  getConnection decrypt net node now st = Some (r, st') →
  connections st' !! k = connections st !! k.
Proof.
  intros Hk. unfold getConnection.
  destruct (connections st !! nodeId_of node) as [existing|] eqn:Hex.
  - case_decide.
    + intros [= <- <-]. simpl. by rewrite lookup_insert_ne.
    + intros Hrun. apply (createConnection_fuel_local _ _ _ _ _ _ k Hk) in Hrun.
      rewrite Hrun. by apply removeConnection_lookup_ne.
  - by apply createConnection_fuel_local.
Qed.



(** X2.  The operations on one node never touch the registry entry of
    another: after [getConnection], [exec], [writeFile], [readFile] or
    [close] for a node, whatever their outcome, every other node id maps to
    what it mapped to before. *)
Theorem operations_touch_one_entry node (k : string) :
  k ≠ nodeId_of node →
  (∀ now st r st',
     getConnection decrypt net node now st = Some (r, st') →
     connections st' !! k = connections st !! k) ∧
  (∀ command timeout now reply st r st',
     exec decrypt net node command timeout now reply st = Some (r, st') →
     connections st' !! k = connections st !! k) ∧
  (∀ now reply st r st',
     writeFile decrypt net node now reply st = Some (r, st') →
     connections st' !! k = connections st !! k) ∧
  (∀ now reply st r st',
     readFile decrypt net node now reply st = Some (r, st') →
     connections st' !! k = connections st !! k) ∧
  (∀ st, connections (close (nodeId_of node) st) !! k = connections st !! k).
Proof.
  intros Hk. split; [|split; [|split; [|split]]].
  - intros now st r st'. by apply getConnection_local.
  - intros command timeout now reply st r st'. unfold exec.
    destruct (getConnection decrypt net node now st) as [[[c|e] st1]|] eqn:Hget; [| |done].
    + pose proof (getConnection_local _ _ _ _ _ k Hk Hget) as Hloc.
      destruct reply as [msg|chunks [[elapsed code]|]].
      * intros [= <- <-]. by rewrite removeConnection_lookup_ne.
      * case_decide; by intros [= <- <-].
      * by intros [= <- <-].
    + intros [= <- <-]. by eapply getConnection_local.
  - intros now reply st r st'. unfold writeFile.
    destruct (getConnection decrypt net node now st) as [[[c|e] st1]|] eqn:Hget; [| |done].
    + pose proof (getConnection_local _ _ _ _ _ k Hk Hget) as Hloc.
      destruct reply as [msg|msg|[]]; intros [= <- <-]; [|done|done].
      by rewrite removeConnection_lookup_ne.
    + intros [= <- <-]. by eapply getConnection_local.
  - intros now reply st r st'. unfold readFile.
    destruct (getConnection decrypt net node now st) as [[[c|e] st1]|] eqn:Hget; [| |done].
    + pose proof (getConnection_local _ _ _ _ _ k Hk Hget) as Hloc.
      destruct reply as [msg|msg|content]; intros [= <- <-]; [|done|done].
      by rewrite removeConnection_lookup_ne.
    + intros [= <- <-]. by eapply getConnection_local.
  - intros st. by apply removeConnection_lookup_ne.
Qed.

Lemma createConnection_fuel_recovers (n : nat) fuel node auth retryCount t st :
  authentication decrypt node = Some auth →
  0 ≤ retryCount →
  retryCount + Z.of_nat n ≤ maxRetries (config st) →
  (n < fuel)%nat →
  (∀ i, (i < n)%nat → ∃ msg, net (clients st + i)%nat = EvError msg) →
  net (clients st + n)%nat = EvReady t →
  ∃ st',
    createConnection_fuel decrypt net fuel node retryCount st
      = Some (Resolved (clients st + n)%nat, st') ∧
    length (connects st') = (length (connects st) + n + 1)%nat ∧
    sleeps st' = sleeps st ++ backoff retryCount n ∧
    (∃ e, connections st' !! nodeId_of node = Some e ∧ client e = (clients st + n)%nat ∧
          createdAt e = t ∧ lastUsed e = t ∧ useCount e = 1) ∧
    (clients st + n)%nat ∈ writable st'.
Proof.
  intros Hauth. revert fuel retryCount st.
  induction n as [|n IH]; intros fuel rc st Hrc Hmax Hfuel Herr Hready.
  - destruct fuel as [|fuel]; [lia|]. rewrite createConnection_fuel_unfold, Hauth.
    rewrite Nat.add_0_r in *. rewrite Hready. eexists. split; [done|]. simpl.
    rewrite length_app, app_nil_r, lookup_insert_eq. simpl.
    split; [lia|]. split; [done|]. split; [by eexists|]. set_solver.
  - destruct fuel as [|fuel]; [lia|]. rewrite createConnection_fuel_unfold, Hauth.
    destruct (Herr 0%nat ltac:(lia)) as [msg Hnet]. rewrite Nat.add_0_r in Hnet. rewrite Hnet.
    rewrite decide_True by lia.
    set (st1 := sleep _ _).
    destruct (IH fuel (rc + 1) st1) as (st' & Hrun & Hlen & Hsl & Hentry & Hw).
    + lia.
    + subst st1. simpl. lia.
    + lia.
    + intros i Hi. subst st1. simpl. replace (S (clients st + i)) with (clients st + S i)%nat by lia.
      apply Herr. lia.
    + subst st1. simpl. by replace (S (clients st + n)) with (clients st + S n)%nat by lia.
    + subst st1. simpl in *.
      replace (S (clients st + n)) with (clients st + S n)%nat in * by lia.
      exists st'. split; [done|]. split.
      { rewrite Hlen, length_app. simpl. lia. }
      split; [|done].
      rewrite Hsl, backoff_S by done. by rewrite <- app_assoc.
Qed.

(** X3.  A connection that fails with errors [n] times and then becomes
    ready is obtained, provided [n] is at most [maxRetries]: the call
    resolves with the client of attempt [n + 1], after [n + 1] connects
    and the delays 500, 1000, .., and that client is pooled with
    [useCount] 1. *)
Theorem createConnection_recovers_after_errors node auth (n : nat) t st :
  authentication decrypt node = Some auth →
  Z.of_nat n ≤ maxRetries (config st) →
  (∀ i, (i < n)%nat → ∃ msg, net (clients st + i)%nat = EvError msg) →
  net (clients st + n)%nat = EvReady t →
  ∃ st',
    createConnection decrypt net node 0 st = Some (Resolved (clients st + n)%nat, st') ∧
    length (connects st') = (length (connects st) + n + 1)%nat ∧
    sleeps st' = sleeps st ++ backoff 0 n ∧
    (∃ e, connections st' !! nodeId_of node = Some e ∧ client e = (clients st + n)%nat ∧
          createdAt e = t ∧ lastUsed e = t ∧ useCount e = 1) ∧
    hasConnection (nodeId_of node) st' = true.
Proof.
  intros Hauth Hmax Herr Hready.
  destruct (createConnection_fuel_recovers n (retry_budget (config st) 0) node auth 0 t st)
    as (st' & Hrun & Hlen & Hsl & (e & He & Hc & Hrest) & Hw); try done.
  - unfold retry_budget. lia.
  - exists st'. split; [done|]. split; [done|]. split; [done|]. split; [by exists e|].
    unfold hasConnection. rewrite He, Hc. by apply bool_decide_eq_true.
Qed.

(** X4.  A pool cannot be configured to make no retry: the constructor
    reads [options.maxRetries || 2], so with [maxRetries: 0] a host that
    answers every attempt with an error is still tried three times, with
    the delays 500 and 1000. *)
Theorem zero_retries_cannot_be_configured options node auth :
  opt_maxRetries options = Some 0 →
  authentication decrypt node = Some auth →
  (∀ c, ∃ msg, net c = EvError msg) →
  maxRetries (mk_config options) = 2 ∧
  ∃ msg st',
    createConnection decrypt net node 0 (empty_pool (mk_config options))
      = Some (Rejected (TransportError msg), st') ∧
    length (connects st') = 3%nat ∧
    sleeps st' = [500; 1000].
Proof.
  intros Hopt Hauth Herr.
  assert (maxRetries (mk_config options) = 2) as Hmax by (simpl; by rewrite Hopt).
  split; [done|].
  destruct (createConnection_fuel_all_errors decrypt net
              (retry_budget (mk_config options) 0) node auth 0 (empty_pool (mk_config options)))
    as (msg & st' & Hrun & _ & Hlen & Hsl & _).
  - done.
  - change (config (empty_pool (mk_config options))) with (mk_config options). lia.
  - unfold retry_budget. change (config (empty_pool (mk_config options))) with (mk_config options). lia.
  - intros c _. apply Herr.
  - change (config (empty_pool (mk_config options))) with (mk_config options) in *.
    rewrite Hmax in *. exists msg, st'. split; [done|]. split; [done|]. done.
Qed.

(** X5.  [closeAll] shuts the pool down completely: afterwards the registry
    is empty, [hasConnection] is false for every id, [end()] has been called
    on the client of every entry there was and none of them is writable;
    [end()] is called on no other client and no connection is opened. *)
Theorem closeAll_ends_every_session st :
  connections (closeAll st) = ∅ ∧
  (∀ k, hasConnection k (closeAll st) = false) ∧
  (∀ k e, connections st !! k = Some e →
          client e ∈ ended (closeAll st) ∧ client e ∉ writable (closeAll st)) ∧
  (∀ c, c ∈ ended (closeAll st) →
        c ∈ ended st ∨ ∃ k e, connections st !! k = Some e ∧ client e = c) ∧
  connects (closeAll st) = connects st.
Proof.
  split; [done|]. split; [done|]. split; [|split].
  - intros k e He. apply elem_of_map_to_list in He. unfold closeAll. simpl. split.
    + apply closeAll_loop_ended. right. by exists k, e.
    + rewrite closeAll_loop_writable. intros [_ Hne]. by apply (Hne k e).
  - intros c. unfold closeAll. simpl. rewrite closeAll_loop_ended.
    intros [Hc|(k & e & Hin & Hc)]; [by left|]. right.
    exists k, e. split; [by apply elem_of_map_to_list|done].
  - unfold closeAll. simpl. apply closeAll_loop_connects.
Qed.

(** X6.  A sweep leaves nothing for an earlier or simultaneous sweep to do:
    [cleanup] run at a time not after the previous run changes nothing,
    so in particular [cleanup] is idempotent. *)
Theorem cleanup_settles now now' st :
  now' ≤ now →
  cleanup now' (cleanup now st) = cleanup now st.
Proof.
  intros Hle. unfold cleanup at 1. apply cleanup_loop_noop. intros k e Hin.
  apply elem_of_map_to_list in Hin.
  assert (config (cleanup now st) = config st) as -> by apply cleanup_loop_config.
  destruct (decide (now - lastUsed e > maxIdleTime (config st))) as [Hidle|]; [|lia].
  pose proof (cleanup_loop_subseteq _ _ _ _ _ Hin) as Hst.
  destruct (cleanup_loop_evicts now (map_to_list (connections st)) st k e) as [Hnone _].
  - apply agrees_map_to_list.
  - by apply elem_of_map_to_list.
  - done.
  - done.
  - unfold cleanup in Hin. congruence.
Qed.

(** X7.  In every state the pool can reach, an ssh2 client is pooled under
    at most one node id: two registry entries with the same client have
    the same key, and every pooled client is one the pool has created. *)
Theorem pooled_clients_are_distinct cfg st :
  rtc (step decrypt net) (empty_pool cfg) st →
  (∀ k1 k2 e1 e2,
     connections st !! k1 = Some e1 → connections st !! k2 = Some e2 →
     client e1 = client e2 → k1 = k2) ∧
  (∀ k e, connections st !! k = Some e → (client e < clients st)%nat).
Proof using decrypt net.
  intros Hrun. destruct (well_formed_reachable decrypt net cfg st Hrun) as (Hentries & _ & Hown).
  split.
  - intros k1 k2 e1 e2 H1 H2 Hc.
    destruct (Hentries _ _ H1) as [_ (n1 & Ho1 & <-)].
    destruct (Hentries _ _ H2) as [_ (n2 & Ho2 & <-)].
    rewrite Hc in Ho1. congruence.
  - intros k e He. destruct (Hentries _ _ He) as [_ (n & Ho & _)]. by eapply Hown.
Qed.

(** X8.  File transfers evict a session only when the SFTP subsystem is
    refused: then the entry is removed and the client ended.  An error of
    the read or write stream rejects but leaves the session pooled and
    writable, and a stream that closes resolves (a read with the content
    collected) and leaves the pool as the acquire left it. *)
Theorem transfer_evicts_only_on_refusal node now st c st1 :
  getConnection decrypt net node now st = Some (Resolved c, st1) →
  (∀ msg,
     writeFile decrypt net node now (Ssh2.SftpRefused msg) st
       = Some (Rejected (TransportError msg), removeConnection (nodeId_of node) st1) ∧
     readFile decrypt net node now (Ssh2.SftpRefused msg) st
       = Some (Rejected (TransportError msg), removeConnection (nodeId_of node) st1) ∧
     hasConnection (nodeId_of node) (removeConnection (nodeId_of node) st1) = false ∧
     c ∈ ended (removeConnection (nodeId_of node) st1)) ∧
  (∀ msg,
     writeFile decrypt net node now (Ssh2.SftpStreamError msg) st
       = Some (Rejected (TransportError msg), st1) ∧
     readFile decrypt net node now (Ssh2.SftpStreamError msg) st
       = Some (Rejected (TransportError msg), st1) ∧
     hasConnection (nodeId_of node) st1 = true) ∧
  (∀ content,
     writeFile decrypt net node now (Ssh2.SftpClosed tt) st = Some (Resolved tt, st1) ∧
     readFile decrypt net node now (Ssh2.SftpClosed content) st = Some (Resolved content, st1)).
Proof.
  intros Hget. destruct (getConnection_resolved _ _ _ _ _ _ _ Hget) as (e & He & <- & Hw).
  split; [|split].
  - intros msg. unfold writeFile, readFile. rewrite Hget. split; [done|]. split; [done|].
    split.
    + unfold hasConnection. by rewrite removeConnection_lookup.
    + by apply removeConnection_ends.
  - intros msg. unfold writeFile, readFile. rewrite Hget. split; [done|]. split; [done|].
    unfold hasConnection. rewrite He. by apply bool_decide_eq_true.
  - intros content. unfold writeFile, readFile. by rewrite Hget.
Qed.

(** X9.  The statistics report agrees with the pool: [total] is the length
    of the list, a node id is listed exactly when it has a registry entry,
    no id is listed twice, and the [alive] flag of a listed node is what
    [hasConnection] answers for it. *)
Theorem getStats_agrees_with_pool now st :
  SSHPoolStats.total (SSHPoolStats.getStats now st)
    = length (SSHPoolStats.stats_connections (SSHPoolStats.getStats now st)) ∧
  NoDup (SSHPoolStats.stat_nodeId <$> SSHPoolStats.stats_connections (SSHPoolStats.getStats now st)) ∧
  (∀ k, k ∈ (SSHPoolStats.stat_nodeId <$>
               SSHPoolStats.stats_connections (SSHPoolStats.getStats now st))
        ↔ is_Some (connections st !! k)) ∧
  (∀ s, s ∈ SSHPoolStats.stats_connections (SSHPoolStats.getStats now st) →
        SSHPoolStats.stat_alive s = hasConnection (SSHPoolStats.stat_nodeId s) st ∧
        ∃ e, connections st !! SSHPoolStats.stat_nodeId s = Some e ∧
             SSHPoolStats.stat_idleMs s = now - lastUsed e ∧
             SSHPoolStats.stat_uptimeMs s = now - createdAt e ∧
             SSHPoolStats.stat_useCount s = useCount e).
Proof.
  unfold SSHPoolStats.getStats. simpl.
  assert (SSHPoolStats.stat_nodeId <$>
            (SSHPoolStats.connection_stats now st <$> map_to_list (connections st))
          = (map_to_list (connections st)).*1) as Hkeys.
  { rewrite <- list_fmap_compose. by apply list_fmap_ext. }
  split; [|split; [|split]].
  - rewrite length_fmap. symmetry. apply length_map_to_list.
  - rewrite Hkeys. apply NoDup_fst_map_to_list.
  - intros k. rewrite Hkeys. rewrite list_elem_of_fmap. split.
    + intros ([k' e] & -> & Hin). apply elem_of_map_to_list in Hin. by exists e.
    + intros [e He]. exists (k, e). split; [done|]. by apply elem_of_map_to_list.
  - intros s Hs. apply list_elem_of_fmap in Hs as ([k e] & -> & Hin).
    apply elem_of_map_to_list in Hin. simpl. split.
    + unfold hasConnection. by rewrite Hin.
    + by exists e.
Qed.

End PoolLifecycle.

(** * Further properties of the node sessions *)

Section NodeFacts.
Import NodeSSH.
Set Default Proof Using "Type".

Context {R : Type}.
Variable shell : Command → R → Ssh2.ExecReply * R.
Variable sftp_write : string → string → R → Ssh2.SftpReply unit * R.
Variable parseFloat : option string → float.
Variable Number : string → option Z.
Variable shell_text : string → R → Ssh2.ExecReply * R.

Lemma try_catch_never_throws {A} (body : Async (R:=R) A) (f : Error → A) s e :
  (try_catch body (λ error, ret (f error)) s).1 ≠ Thrown e.
Proof. unfold try_catch, ret. by destruct (body s) as [[a|e'|] s']. Qed.

(** X10.  The remote operations of a session never reject: whatever the
    node and the ssh2 library answer, [checkHysteriaStatus],
    [restartHysteria], [reloadHysteria], [updateConfig],
    [setupPortHopping], [getSystemStats] and [getNetworkSpeed] end with a
    value (or stay pending on a channel that never closes), never with an
    exception. *)
Theorem remote_operations_never_reject node configContent portRange now1 now2
    (s : Session R) e :
  (checkHysteriaStatus shell s).1 ≠ Thrown e ∧
  (restartHysteria shell s).1 ≠ Thrown e ∧
  (reloadHysteria shell s).1 ≠ Thrown e ∧
  (updateConfig shell sftp_write node configContent s).1 ≠ Thrown e ∧
  (setupPortHopping shell Number node portRange s).1 ≠ Thrown e ∧
  (getSystemStats shell parseFloat s).1 ≠ Thrown e ∧
  (NetworkSpeed.getNetworkSpeed shell_text now1 now2 s).1 ≠ Thrown e.
Proof.
  repeat split.
  - apply (try_catch_never_throws _ (λ _, false)).
  - apply (try_catch_never_throws _ (λ _, false)).
  - apply (try_catch_never_throws _ (λ _, false)).
  - apply (try_catch_never_throws _ (λ _, false)).
  - apply (try_catch_never_throws _ (λ _, false)).
  - apply (try_catch_never_throws _ StatsFailed).
  - apply (try_catch_never_throws _ (λ error, NetworkSpeed.SpeedFailed (NetworkSpeed.Caught error))).
Qed.

(** X11.  On a session that is not connected every remote operation
    reports failure without reaching the node: the boolean operations
    return [false], the two probes return the error [NotConnected], the
    remote side is untouched, and only [checkHysteriaStatus] has waited
    (its 2000 ms) before finding out. *)
Theorem operations_need_a_connection node configContent portRange now1 now2 (s : Session R) :
  client s = false →
  checkHysteriaStatus shell s
    = (Returned false, mkSession false (remote s) (waited s ++ [2000])) ∧
  restartHysteria shell s = (Returned false, s) ∧
  reloadHysteria shell s = (Returned false, s) ∧
  updateConfig shell sftp_write node configContent s = (Returned false, s) ∧
  setupPortHopping shell Number node portRange s = (Returned false, s) ∧
  getSystemStats shell parseFloat s = (Returned (StatsFailed NotConnected), s) ∧
  NetworkSpeed.getNetworkSpeed shell_text now1 now2 s
    = (Returned (NetworkSpeed.SpeedFailed (NetworkSpeed.Caught NotConnected)), s).
Proof.
  intros Hc. destruct s as [c r w]. simpl in Hc. subst c.
  repeat split.
Qed.

(** X12.  [reloadHysteria] takes its verdict from the status probe alone.
    When the restart command and the probe both close, the result is [true]
    exactly when the trimmed output of the probe is [active], whatever exit
    status the restart command had; the 3000 ms pause lies between the
    two, and the journal is requested only when the probe says otherwise. *)
Theorem reloadHysteria_trusts_the_probe (s : Session R) chunks1 t1 code1 r1 chunks2 t2 code2 r2 :
  client s = true →
  shell CmdRestart (remote s) = (Ssh2.ExecStarted chunks1 (Some (t1, code1)), r1) →
  shell CmdIsActive r1 = (Ssh2.ExecStarted chunks2 (Some (t2, code2)), r2) →
  (JS.trim (Ssh2.collect_stdout chunks2) = "active" →
     reloadHysteria shell s = (Returned true, mkSession true r2 (waited s ++ [3000]))) ∧
  (JS.trim (Ssh2.collect_stdout chunks2) ≠ "active" →
     (reloadHysteria shell s).1 ≠ Returned true ∧
     (reloadHysteria shell s).2
       = mkSession true (shell CmdJournal r2).2 (waited s ++ [3000])).
Proof.
  destruct s as [c r w]. simpl. intros -> Hrestart Hprobe.
  unfold reloadHysteria, try_catch, bind, exec, sleep, ret. simpl.
  rewrite Hrestart. simpl. rewrite Hprobe. simpl. split.
  - intros Hactive. by rewrite bool_decide_eq_true_2.
  - intros Hdown. rewrite bool_decide_eq_false_2 by done. simpl.
    destruct (shell CmdJournal r2) as [[msg|chunks3 [[t3 code3]|]] r3]; simpl; by split.
Qed.

(** X13.  A failed [connect] for want of credentials still leaves a client
    object in the session: the promise rejects with the credentials error
    before anything is sent, but [this.client] is already set, so a later
    [exec] is not stopped by the not-connected check and goes to the ssh2
    library, until [disconnect] clears the field. *)
Theorem connect_without_credentials_keeps_client node wire command (s : Session R) :
  JS.truthy (ssh node ≫= SSHPool.ssh_privateKey) = None →
  JS.truthy (ssh node ≫= SSHPool.ssh_password) = None →
  connect node wire s = (Thrown NoKeyOrPassword, mkSession true (remote s) (waited s)) ∧
  (exec shell command (connect node wire s).2).1 ≠ Thrown NotConnected ∧
  (exec shell command (disconnect (connect node wire s).2)).1 = Thrown NotConnected.
Proof.
  intros Hkey Hpw. unfold connect. rewrite Hkey, Hpw. split; [done|]. split.
  - unfold exec. simpl.
    destruct (shell command (remote s)) as [[msg|chunks [[t code]|]] r]; by simpl.
  - done.
Qed.

End NodeFacts.

(** * Further properties of the node operations on a host *)

Section HostOperations.
Import NodeSSH Host.
Set Default Proof Using "Type".


Lemma run_line_rejected h line :
  match line with
  | Iptables _ _ rule _ => accepted rule = false
  | _ => True
  end →
  nat4 (run_line h line) = nat4 h ∧ nat6 (run_line h line) = nat6 h ∧
  history (run_line h line) = history h ∧
  ∀ p : string, p ≠ rules_v4 → p ≠ rules_v6 → files (run_line h line) !! p = files h !! p.
Proof.
  destruct line as [family op rule quiet|first last| |]; simpl.
  - by intros ->.
  - intros _. destruct (ufw_active h); [destruct (ufw_accepts first last)|]; done.
  - intros _. destruct (rule_saver h); simpl; repeat split; try done;
      intros p H4 H6; by rewrite !lookup_insert_ne.
  - done.
Qed.

Lemma run_script_rejected lines h :
  Forall (λ line, match line with
                  | Iptables _ _ rule _ => accepted rule = false
                  | _ => True
                  end) lines →
  nat4 (foldl run_line h lines) = nat4 h ∧ nat6 (foldl run_line h lines) = nat6 h ∧
  history (foldl run_line h lines) = history h ∧
  ∀ p : string, p ≠ rules_v4 → p ≠ rules_v6 → files (foldl run_line h lines) !! p = files h !! p.
Proof.
  intros Hlines. revert h. induction Hlines as [|line lines Hline _ IH]; intros h; [done|].
  cbn [foldl].
  destruct (run_line_rejected h line Hline) as (H4 & H6 & Hh & Hf).
  destruct (IH (run_line h line)) as (H4' & H6' & Hh' & Hf').
  rewrite H4', H6', Hh'. repeat split; try done.
  intros p Hp4 Hp6. by rewrite Hf', Hf.
Qed.

(** X15.  [setupPortHopping] reports success whatever becomes of its
    script.  When the text given is not a usable range (a piece is missing
    or not a number, the bounds are reversed or exceed 65535), the node
    accepts none of the iptables rules: its redirect chains are left as
    they were, no file other than the two the rules are saved to is
    touched, and the call still returns [true]. *)
Theorem setupPortHopping_reports_success_for_unusable_range Number node portRange h :
  let parts := Number <$> JS.split "-" portRange in
  accepted (mkRedirect None (mjoin (parts !! 0%nat)) (mjoin (parts !! 1%nat))
                       (JS.or_num (port node) 443)) = false →
  ∃ h',
    setupPortHopping shell Number node portRange (connected h) = (Returned true, connected h') ∧
    nat4 h' = nat4 h ∧ nat6 h' = nat6 h ∧
    (∀ p : string, p ≠ rules_v4 → p ≠ rules_v6 → files h' !! p = files h !! p) ∧
    ∃ script, history h' = history h ++ [CmdScript script].
Proof.
  intros parts Hbad.
  unfold setupPortHopping, try_catch, bind, ret, connected. fold parts.
  rewrite exec_script.
  eexists. split; [reflexivity|].
  match goal with
  | |- context [foldl run_line ?h0 ?script] =>
      destruct (run_script_rejected script h0) as (H4 & H6 & Hh & Hf)
  end.
  { unfold port_hopping_script, legacy_ifaces. simpl. repeat constructor; exact Hbad. }
  rewrite H4, H6, Hh. repeat split; try done. by eexists.
Qed.

End HostOperations.

(** * Further properties of the probes *)

Section ProbeFacts.
Import NodeSSH StatsNotions.
Set Default Proof Using "Type".

Context {R : Type}.
Variable shell : Command → R → Ssh2.ExecReply * R.
Variable parseFloat : option string → float.
Variable shell_text : string → R → Ssh2.ExecReply * R.

Lemma stats_line_marker_free stats line :
  marker_free line → stats_line parseFloat (SecNone, stats) line = (SecNone, stats).
Proof.
  intros (H1 & H2 & H3 & H4 & H5). unfold stats_line. rewrite H1, H2, H3, H4, H5.
  by case_bool_decide.
Qed.

Lemma stats_loop_marker_free stats lines :
  Forall marker_free lines → foldl (stats_line parseFloat) (SecNone, stats) lines = (SecNone, stats).
Proof.
  induction 1 as [|line lines Hline _ IH]; [done|]. cbn [foldl].
  by rewrite stats_line_marker_free.
Qed.

(** X16.  Output without section markers is taken for a successful
    reading of nothing: when the statistics command closes and no line of
    what it printed contains a marker, [getSystemStats] returns success
    with the default values (no load, one core, zero sizes and uptime),
    whatever the exit status. *)
Theorem getSystemStats_defaults_without_markers (s : Session R) chunks t code r :
  client s = true →
  shell CmdStats (remote s) = (Ssh2.ExecStarted chunks (Some (t, code)), r) →
  Forall marker_free (JS.split JS.LF (Ssh2.collect_stdout chunks)) →
  getSystemStats shell parseFloat s
    = (Returned (StatsOk stats_defaults), mkSession true r (waited s)).
Proof.
  destruct s as [c r0 w]. simpl. intros -> Hreply Hfree.
  unfold getSystemStats, try_catch, bind, exec, ret. simpl. rewrite Hreply. simpl.
  unfold parse_stats. by rewrite stats_loop_marker_free.
Qed.

Lemma or_float_is_number x d : is_number d → is_number (JS.or_float x d).
Proof.
  unfold is_number, JS.or_float. intros Hd.
  destruct (JS.is_nan x) eqn:Hx; simpl; [done|]. by destruct (PrimFloat.eqb x 0).
Qed.

Lemma or_float_nonzero x d :
  PrimFloat.eqb d 0 = false → PrimFloat.eqb (JS.or_float x d) 0 = false.
Proof.
  unfold JS.or_float. intros Hd.
  destruct (JS.is_nan x); simpl; [done|]. by destruct (PrimFloat.eqb x 0) eqn:Hx.
Qed.

Lemma stats_line_clean acc line : clean acc.2 → clean (stats_line parseFloat acc line).2.
Proof.
  destruct acc as [section stats]. simpl. intros Hclean. unfold stats_line.
  repeat (match goal with |- context [if ?b then _ else _] => destruct b end; [done|]).
  destruct Hclean as (Hl1 & Hl5 & Hl15 & Hc & Hc0 & (Hm1 & Hm2 & Hm3) & (Hd1 & Hd2 & Hd3)).
  destruct section; unfold clean, sizes_are_numbers; simpl;
    repeat split; try assumption; try (by apply or_float_is_number);
    by apply or_float_nonzero.
Qed.

(** X17.  Whatever the node prints, the statistics parsed from it hold no
    [NaN] where a number was read with a fallback: the three load averages
    and the sizes of memory and disk are numbers, and the core count is a
    number other than zero, so a load divided by it is defined. *)
Theorem parse_stats_is_clean output : clean (parse_stats parseFloat output).
Proof.
  unfold parse_stats.
  assert (∀ lines acc, clean acc.2 → clean (foldl (stats_line parseFloat) acc lines).2) as Hloop.
  { induction lines as [|line lines IH]; intros acc Hacc; [done|]. cbn [foldl].
    by apply IH, stats_line_clean. }
  apply Hloop. simpl. unfold clean, sizes_are_numbers, is_number. simpl. by repeat split.
Qed.

(** X18.  [getNetworkSpeed] gives up as soon as a reading finds no
    interface line.  When the first reading prints nothing but white
    space, the call returns the failure [Network interface not found]
    without pausing and without a second reading; when only the second
    reading is empty, it returns the same failure after the pause of
    1000 ms. *)
Theorem getNetworkSpeed_interface_not_found (s : Session R) now1 now2 chunks1 t1 code1 r1 :
  client s = true →
  shell_text NetworkSpeed.net_dev_command (remote s)
    = (Ssh2.ExecStarted chunks1 (Some (t1, code1)), r1) →
  (JS.trim (Ssh2.collect_stdout chunks1) = "" →
     NetworkSpeed.getNetworkSpeed shell_text now1 now2 s
       = (Returned (NetworkSpeed.SpeedFailed NetworkSpeed.InterfaceNotFound),
          mkSession true r1 (waited s))) ∧
  (JS.trim (Ssh2.collect_stdout chunks1) ≠ "" →
     ∀ chunks2 t2 code2 r2,
       shell_text NetworkSpeed.net_dev_command r1
         = (Ssh2.ExecStarted chunks2 (Some (t2, code2)), r2) →
       JS.trim (Ssh2.collect_stdout chunks2) = "" →
       NetworkSpeed.getNetworkSpeed shell_text now1 now2 s
         = (Returned (NetworkSpeed.SpeedFailed NetworkSpeed.InterfaceNotFound),
            mkSession true r2 (waited s ++ [1000]))).
Proof.
  destruct s as [c r0 w]. simpl. intros -> Hfirst.
  unfold NetworkSpeed.getNetworkSpeed, NetworkSpeed.getNetStats, NetworkSpeed.exec_text,
    try_catch, bind, sleep, ret. simpl. rewrite Hfirst. simpl. split.
  - intros Hempty. by rewrite bool_decide_eq_true_2.
  - intros Hline chunks2 t2 code2 r2 Hsecond Hempty.
    rewrite bool_decide_eq_false_2 by done. simpl. rewrite Hsecond. simpl.
    by rewrite bool_decide_eq_true_2.
Qed.

End ProbeFacts.

(** * Properties of the configuration generator *)

Section ConfigFacts.
Import ConfigGenerator.
Set Default Proof Using "Type".

(** X19.  A generated configuration names exactly one source for the
    server certificate.  The object [generateNodeConfig] serialises has an
    [acme] block when the node has a domain and a [tls] block when it has
    none, never both and never neither; [sniGuard: disable] appears only in
    a [tls] block, exactly when the node has a custom SNI, so with a domain
    the SNI setting has no effect; [trafficStats] appears exactly when both
    the statistics port and secret are set; and no key occurs twice.
    [generateNodeConfigACME] always has the [acme] block and never a [tls]
    one. *)
Theorem nodeConfig_has_one_certificate_source node authUrl options :
  let config := nodeConfig node authUrl options in
  NoDup config.*1 ∧
  (is_Some (get "acme" config) ↔ is_Some (JS.truthy (domain node))) ∧
  (is_Some (get "tls" config) ↔ JS.truthy (domain node) = None) ∧
  (∀ d, JS.truthy (domain node) = Some d →
        get "acme" config
          = Some (VObj [("domains", VArr [VStr d]); ("email", VStr ("acme@" +:+ d));
                        ("ca", VStr "letsencrypt"); ("listenHost", VStr "0.0.0.0")])) ∧
  (∀ tls, get "tls" config = Some (VObj tls) →
          (get "sniGuard" tls = Some (VStr "disable") ↔ is_Some (JS.truthy (sni node))) ∧
          (get "sniGuard" tls = None ↔ JS.truthy (sni node) = None)) ∧
  (is_Some (get "trafficStats" config)
     ↔ is_Some (truthy_num (statsPort node)) ∧ is_Some (JS.truthy (statsSecret node))) ∧
  (∀ acmeDomain email,
     let configACME := nodeConfigACME node authUrl acmeDomain email options in
     NoDup configACME.*1 ∧
     get "acme" configACME
       = Some (VObj [("domains", VArr [VStr acmeDomain]); ("email", VStr email)]) ∧
     get "tls" configACME = None).
Proof.
  unfold nodeConfig, nodeConfigACME, with_trafficStats.
  destruct (JS.truthy (domain node)) as [d|];
    destruct (JS.truthy (sni node)) as [custom|];
    destruct (truthy_num (statsPort node)) as [sp|];
    destruct (JS.truthy (statsSecret node)) as [secret|]; cbn;
    repeat match goal with
           | |- _ ∧ _ => split
           | |- _ ↔ _ => split
           | |- NoDup _ => apply (bool_decide_unpack _); vm_compute; exact I
           | |- ∀ _, _ => intro
           | H : _ ∧ _ |- _ => destruct H
           | H : is_Some None |- _ => by destruct H
           end;
    simplify_eq/=; try done; by eexists.
Qed.

End ConfigFacts.

(** * Properties of runs of calls *)

Section RunFacts.
Import SSHPool NodeSSH.
Set Default Proof Using "Type".

Variable decrypt : string → string.
Variable net : nat → ConnEvent.

Lemma last_cons_default (x : Z) l d d' : List.last (x :: l) d = List.last (x :: l) d'.
Proof. revert x. induction l as [|y l IH]; intros x; [done|]. apply (IH y). Qed.

(** X20.  Acquires of a live session count its uses: after one
    [getConnection] at each of the given times, the entry holds the same
    client, created at the same time, its [useCount] has grown by the
    number of calls and its [lastUsed] is the time of the last one; no
    connection was opened, no client ended and nothing waited for. *)
Theorem getConnection_each_counts_uses node times st existing :
  connections st !! nodeId_of node = Some existing →
  SSHPool.client existing ∈ writable st →
  ∃ st' e,
    SSHPoolRuns.getConnection_each decrypt net node times st = Some st' ∧
    connections st' !! nodeId_of node = Some e ∧
    SSHPool.client e = SSHPool.client existing ∧
    createdAt e = createdAt existing ∧
    useCount e = useCount existing + Z.of_nat (length times) ∧
    lastUsed e = List.last times (lastUsed existing) ∧
    connects st' = connects st ∧ ended st' = ended st ∧ sleeps st' = sleeps st ∧
    clients st' = clients st.
Proof.
  revert st existing. induction times as [|now later IH]; intros st existing Hentry Hlive.
  - exists st, existing. simpl. repeat split; [done|lia].
  - destruct (getConnection_live decrypt net node now st existing Hentry Hlive)
      as (st1 & Hget & (e1 & Hconns & Hc1 & Hcr1 & Hlu1 & Huc1) & Hcon & Hcl & Hsl & Hen & Hw).
    destruct (IH st1 e1) as (st' & e & Hrun & He & Hc & Hcr & Huc & Hlu & Hcon' & Hen' & Hsl' & Hcl').
    + rewrite Hconns. apply lookup_insert_eq.
    + rewrite Hw, Hc1. done.
    + exists st', e. cbn [SSHPoolRuns.getConnection_each]. rewrite Hget.
      split; [done|]. split; [done|]. split; [congruence|]. split; [congruence|].
      split; [rewrite Huc, Huc1, length_cons; lia|].
      split.
      { rewrite Hlu, Hlu1. destruct later as [|t later]; [done|].
        change (List.last (now :: t :: later) (lastUsed existing))
          with (List.last (t :: later) (lastUsed existing)).
        apply last_cons_default. }
      repeat split; congruence.
Qed.

End RunFacts.

Section VerdictFacts.
Import NodeSSH.
Set Default Proof Using "Type".

Context {R : Type}.
Variable shell : Command → R → Ssh2.ExecReply * R.

(** X21.  The two quick probes say [true] for one reason only.  On a
    connected session [restartHysteria] returns [true] exactly when its
    command closes with exit status 0, and [checkHysteriaStatus] exactly
    when its command closes and the trimmed output is [active]; a refused
    command, another exit status (or none) and any other output give
    [false] or leave the call pending. *)
Theorem probes_say_true_for_one_reason (s : Session R) :
  client s = true →
  ((restartHysteria shell s).1 = Returned true ↔
   ∃ chunks t r,
     shell CmdRestartQuiet (remote s) = (Ssh2.ExecStarted chunks (Some (t, Some 0)), r)) ∧
  ((checkHysteriaStatus shell s).1 = Returned true ↔
   ∃ chunks t code r,
     shell CmdIsActiveOrUnknown (remote s) = (Ssh2.ExecStarted chunks (Some (t, code)), r) ∧
     JS.trim (Ssh2.collect_stdout chunks) = "active").
Proof.
  destruct s as [c r0 w]. simpl. intros ->.
  unfold restartHysteria, checkHysteriaStatus, try_catch, bind, exec, sleep, ret. simpl. split.
  - destruct (shell CmdRestartQuiet r0) as [[msg|chunks [[t code]|]] r]; simpl.
    + split; [done|]. by intros (? & ? & ? & ?).
    + case_bool_decide as Hcode; simpl.
      * subst code. split; [|done]. intros _. by eexists _, _, _.
      * split; [done|]. intros (? & ? & ? & ?). simplify_eq.
    + split; [done|]. by intros (? & ? & ? & ?).
  - destruct (shell CmdIsActiveOrUnknown r0) as [[msg|chunks [[t code]|]] r]; simpl.
    + split; [done|]. by intros (? & ? & ? & ? & ? & ?).
    + split.
      * intros [= Hactive]. apply bool_decide_eq_true in Hactive. by eexists _, _, _, _.
      * intros (? & ? & ? & ? & ? & Hactive). simplify_eq. by rewrite bool_decide_eq_true_2.
    + split; [done|]. by intros (? & ? & ? & ? & ? & ?).
Qed.

End VerdictFacts.

(** * The further properties at sample inputs *)

Section PoolLifecycleSamples.
Import SSHPool.


(** X2 at [two_sessions]: closing the session of [a] leaves that of [b]. *)
Lemma operations_touch_one_entry_witness :
  connections (close "a" two_sessions) !! "b" = connections two_sessions !! "b".
Proof.
  apply (proj2 (proj2 (proj2 (proj2
           (operations_touch_one_entry (λ s, s) net_ready
              (mkNode (Some "a") "" None "198.51.100.1" None) "b" ltac:(discriminate)))))
           two_sessions).
Defined.

(** X3 at a host that resets the first two attempts and accepts the
    third. *)
Lemma createConnection_recovers_witness :
  ∃ st',
    createConnection (λ s, s)
        (λ c, if (c <? 2)%nat then EvError "ECONNRESET" else EvReady 1000)
        example_node 0 (empty_pool default_config)
      = Some (Resolved 2%nat, st') ∧
    length (connects st') = 3%nat ∧
    sleeps st' = [500; 1000] ∧
    hasConnection (nodeId_of example_node) st' = true.
Proof.
  destruct (createConnection_recovers_after_errors (λ s, s)
              (λ c, if (c <? 2)%nat then EvError "ECONNRESET" else EvReady 1000)
              example_node (AuthPassword "U2FsdGVkX18x") 2 1000 (empty_pool default_config))
    as (st' & Hrun & Hlen & Hsl & _ & Hhas).
  - reflexivity.
  - vm_compute. discriminate.
  - intros i Hi. exists "ECONNRESET". destruct i as [|[|i]]; [reflexivity|reflexivity|lia].
  - reflexivity.
  - exists st'. split; [exact Hrun|]. split; [exact Hlen|]. split; [exact Hsl|exact Hhas].
Defined.

(** X4 at a pool built with [maxRetries: 0] and a host that refuses. *)
Lemma zero_retries_witness :
  maxRetries (mk_config (mkOptions None None None (Some 0) None)) = 2 ∧
  ∃ msg st',
    createConnection (λ s, s) net_refused example_node 0
        (empty_pool (mk_config (mkOptions None None None (Some 0) None)))
      = Some (Rejected (TransportError msg), st') ∧
    length (connects st') = 3%nat ∧
    sleeps st' = [500; 1000].
Proof.
  apply (zero_retries_cannot_be_configured (λ s, s) net_refused
           (mkOptions None None None (Some 0) None) example_node (AuthPassword "U2FsdGVkX18x")).
  - reflexivity.
  - reflexivity.
  - intros c. exists "ECONNREFUSED". reflexivity.
Defined.

(** X6 at [two_sessions]: a sweep at 100 after the sweep at 130000. *)
Lemma cleanup_settles_witness :
  cleanup 100 (cleanup 130000 two_sessions) = cleanup 130000 two_sessions.
Proof. apply (cleanup_settles 130000 100 two_sessions). lia. Defined.

(** X7 at the singleton with one session. *)
Lemma pooled_clients_witness :
  (∀ k1 k2 e1 e2,
     connections one_session !! k1 = Some e1 → connections one_session !! k2 = Some e2 →
     client e1 = client e2 → k1 = k2) ∧
  (∀ k e, connections one_session !! k = Some e → (client e < clients one_session)%nat).
Proof.
  apply (pooled_clients_are_distinct (λ s, s) net_ready default_config one_session).
  apply rtc_once.
  apply (step_getConnection _ _ example_node 1000 _ (Resolved 0%nat)). reflexivity.
Defined.

(** X8 at a write whose stream fails with [EACCES] on a fresh session. *)
Lemma transfer_witness :
  writeFile (λ s, s) net_ready example_node 1000 (Ssh2.SftpStreamError "EACCES")
      (empty_pool default_config)
    = Some (Rejected (TransportError "EACCES"), one_session) ∧
  hasConnection (nodeId_of example_node) one_session = true.
Proof.
  destruct (transfer_evicts_only_on_refusal (λ s, s) net_ready example_node 1000
              (empty_pool default_config) 0%nat one_session) as (_ & Hstream & _).
  - reflexivity.
  - destruct (Hstream "EACCES") as (Hwrite & _ & Hhas). split; [exact Hwrite|exact Hhas].
Defined.

(** X20 at three acquires of the session of [b] in [two_sessions]. *)
Lemma getConnection_each_witness :
  ∃ st' e,
    SSHPoolRuns.getConnection_each (λ s, s) net_ready
        (mkNode (Some "b") "" None "198.51.100.2" None) [100100; 100200; 100300] two_sessions
      = Some st' ∧
    connections st' !! "b" = Some e ∧
    client e = 1%nat ∧ useCount e = 7 ∧ lastUsed e = 100300 ∧ connects st' = [].
Proof.
  destruct (getConnection_each_counts_uses (λ s, s) net_ready
              (mkNode (Some "b") "" None "198.51.100.2" None) [100100; 100200; 100300]
              two_sessions (mkMeta 1 "b" "node-b" "198.51.100.2" 0 100000 4))
    as (st' & e & Hrun & He & Hc & _ & Huc & Hlu & Hcon & _).
  - reflexivity.
  - vm_compute. set_solver.
  - exists st', e. split; [exact Hrun|]. split; [exact He|]. split; [exact Hc|].
    split; [exact Huc|]. split; [exact Hlu|exact Hcon].
Defined.

End PoolLifecycleSamples.

Section NodeSamples.
Import NodeSSH Host.

(** X11 at a session for [running_host] that was never connected. *)
Lemma operations_need_a_connection_witness :
  updateConfig shell sftp_write example_node "listen: :443" (new_session running_host)
    = (Returned false, new_session running_host) ∧
  getSystemStats shell (λ _, 0%float) (new_session running_host)
    = (Returned (StatsFailed NotConnected), new_session running_host).
Proof.
  destruct (operations_need_a_connection shell sftp_write (λ _, 0%float) Number_decimal
              (λ _ h, (Ssh2.ExecRefused "", h)) example_node "listen: :443" "20000-50000" 0 1000
              (new_session running_host))
    as (_ & _ & _ & Hupdate & _ & Hstats & _).
  - reflexivity.
  - split; [exact Hupdate|exact Hstats].
Defined.

(** X12 at [running_host], whose probe answers [active]. *)
Lemma reloadHysteria_witness :
  reloadHysteria shell (connected running_host)
    = (Returned true,
       mkSession true (record CmdIsActive (record CmdRestart running_host)) [3000]).
Proof.
  apply (proj1 (reloadHysteria_trusts_the_probe shell (connected running_host)
                  [Ssh2.Stdout ""] 0 (Some 0) (record CmdRestart running_host)
                  [Ssh2.Stdout "active"] 0 (Some 0)
                  (record CmdIsActive (record CmdRestart running_host))
                  eq_refl eq_refl eq_refl)).
  reflexivity.
Defined.

(** X13 at a node without stored credentials. *)
Lemma connect_without_credentials_witness :
  connect example_node HandshakeReady (new_session fresh_host)
    = (Thrown NoKeyOrPassword, mkSession true fresh_host []) ∧
  (exec shell CmdIsActive (connect example_node HandshakeReady (new_session fresh_host)).2).1
    ≠ Thrown NotConnected.
Proof.
  destruct (connect_without_credentials_keeps_client shell example_node HandshakeReady
              CmdIsActive (new_session fresh_host) eq_refl eq_refl) as (Hconnect & Hexec & _).
  split; [exact Hconnect|exact Hexec].
Defined.


(** X15 at a range whose bounds are reversed. *)
Lemma setupPortHopping_unusable_range_witness :
  ∃ h',
    setupPortHopping shell Number_decimal example_node "50000-20000" (connected legacy_host)
      = (Returned true, connected h') ∧
    nat4 h' = nat4 legacy_host.
Proof.
  destruct (setupPortHopping_reports_success_for_unusable_range Number_decimal example_node
              "50000-20000" legacy_host eq_refl) as (h' & Hrun & Hnat & _).
  exists h'. split; [exact Hrun|exact Hnat].
Defined.

(** X16 at [fresh_host], whose statistics command prints nothing. *)
Lemma getSystemStats_defaults_witness :
  getSystemStats shell (λ _, 0%float) (connected fresh_host)
    = (Returned (StatsOk stats_defaults), mkSession true (record CmdStats fresh_host) []).
Proof.
  apply (getSystemStats_defaults_without_markers shell (λ _, 0%float) (connected fresh_host)
           [Ssh2.Stdout ""] 0 (Some 0) (record CmdStats fresh_host) eq_refl eq_refl).
  repeat constructor.
Defined.

(** X18 at a node without a matching interface. *)
Lemma getNetworkSpeed_not_found_witness :
  NetworkSpeed.getNetworkSpeed NetworkSpeed.no_interface_node 0 1000 (mkSession true [] [])
    = (Returned (NetworkSpeed.SpeedFailed NetworkSpeed.InterfaceNotFound),
       mkSession true [NetworkSpeed.net_dev_command] []).
Proof.
  apply (proj1 (getNetworkSpeed_interface_not_found NetworkSpeed.no_interface_node
                  (mkSession true [] []) 0 1000 [] 0 (Some 0) [NetworkSpeed.net_dev_command]
                  eq_refl eq_refl)).
  reflexivity.
Defined.

(** X21 at [running_host], whose restart command exits with 0. *)
Lemma probes_witness :
  (restartHysteria shell (connected running_host)).1 = Returned true.
Proof.
  apply (proj1 (probes_say_true_for_one_reason shell (connected running_host) eq_refl)).
  exists [Ssh2.Stdout ""], 0, (record CmdRestartQuiet running_host). reflexivity.
Defined.

(** C8 at a node whose percentages are not whole before rounding. *)
Lemma getSystemStats_percent_witness :
  ∃ stats,
    getSystemStats shell (λ _, 0%float) (connected uneven_host)
      = (Returned (StatsOk stats), mkSession true (record CmdStats uneven_host) []) ∧
    StatsNotions.percent_rounded (mem stats) ∧
    StatsNotions.percent_rounded (disk stats) ∧
    percent (mem stats) = 13%float ∧
    percent (disk stats) = 67%float.
Proof.
  destruct (getSystemStats_percent (λ _, 0%float) shell (connected uneven_host)
              [Ssh2.Stdout uneven_stats_output] 0 (Some 0) (record CmdStats uneven_host)
              eq_refl eq_refl) as (Hrun & Hmem & Hdisk & _).
  eexists. split; [exact Hrun|]. split; [exact Hmem|]. split; [exact Hdisk|].
  split; vm_compute; reflexivity.
Defined.

End NodeSamples.
